(** * Corsi block-tapping task: the progression and scoring engine

    A shallow embedding of [corsi-backend/corsi_engine.py] (class
    [CorsiEngine]), of the request handlers of [corsi-backend/main.py] that
    drive it, of the two writes of [corsi-backend/database_manager.py], of
    [utils/validation.py], and of the desktop task ([config.py], the layout,
    the score and the main test of [task/corsi_task.py], the trial of
    [task/trial_runner.py]), followed by the properties the specification
    states about them and by further properties read off the code.

    Conventions of the embedding:
    - Python [int] is [Z]; [len] is [Z.of_nat (length _)]; a [bool] summed by
      [sum] counts as 0 or 1 ([Z.b2z]).
    - [a / b] on two Python ints (true division) is the exact rational
      quotient in [Q], and raises [ZeroDivisionError] when [b] is 0.  Python
      rounds the quotient of two ints correctly to a double, and 0.5 is a
      double, so the test [a / b >= 0.5] agrees with the exact one as long as
      the list lengths stay far below 2^53.
    - an exception is the [Raise] branch of [Result]; a method that mutates
      [self] takes the engine and returns the new one.
    - [datetime.now()], [uuid4()] and [random.sample] are inputs of the
      operations that call them. *)

From Stdlib Require Import QArith Qabs Lqa.
From stdpp Require Import numbers strings list fin_maps gmap pretty.

Open Scope Z_scope.

(** ** Exceptions *)

Inductive PyExn : Type :=
  | ZeroDivisionError
  | ValueError
  | KeyError.

Inductive Result (A : Type) : Type :=
  | Ok (a : A)
  | Raise (e : PyExn).
Arguments Ok {A} a.
Arguments Raise {A} e.

Global Instance Result_ret : MRet Result := λ A a, Ok a.
Global Instance Result_bind : MBind Result := λ A B f m,
  match m with
  | Ok a => f a
  | Raise e => Raise e
  end.

(** ** Python builtins used by the engine *)

(** [sum(xs)]: a left fold from 0. *)
Definition py_sum (xs : list Z) : Z := foldl Z.add 0 xs.

(** [a / b] on ints. *)
Definition true_div (a b : Z) : Result Q :=
  if decide (b = 0) then Raise ZeroDivisionError
  else Ok (inject_Z a / inject_Z b)%Q.

(** [v == w] on two lists of ints, as CPython's list comparison does it:
    lists of different lengths are unequal at once, otherwise the items are
    compared pairwise up to the first difference. *)
Fixpoint items_eq (v w : list Z) : bool :=
  match v, w with
  | x :: v', y :: w' => if Z.eqb x y then items_eq v' w' else false
  | _, _ => true
  end.

Definition list_eq (v w : list Z) : bool :=
  if Nat.eqb (length v) (length w) then items_eq v w else false.

(** [max(xs)] on a non-empty argument: the first item, replaced by each
    later one that is larger. *)
Definition py_max (x : Z) (xs : list Z) : Z :=
  foldl (λ m y, if Z.ltb m y then y else m) x xs.

(** ** Data model *)

(** One entry of [self.results]. *)
Record TrialRecord : Type := mkTrial {
  span_length : Z;
  trial_number : Z;
  sequence : list Z;
  response : list Z;
  correct : bool;
  timestamp : string
}.

(** [CandidateInfo] of main.py, after [.dict()]: every key is present. *)
Record CandidateInfo : Type := mkCandidate {
  examiner_name : string;
  candidate_name : string;
  candidate_id : string;
  age : option string;
  gender : option string;
  session : Z;
  additional_notes : option string
}.

(** The class constants. *)
Definition MIN_SPAN : Z := 2.
Definition MAX_SPAN : Z := 8.
Definition TRIALS_PER_SPAN : Z := 2.
Definition NUM_BLOCKS : Z := 9.

(** The fields of a [CorsiEngine] object ([self.db] is the write log of
    [save_session] below). *)
Record CorsiEngine : Type := mkEngine {
  candidate_info : CandidateInfo;
  results : list TrialRecord;
  current_span : Z;
  current_trial : Z;
  finished : bool
}.

(** The dict returned by [_state]. *)
Record StateView : Type := mkState {
  st_span_length : Z;
  st_trial_number : Z;
  st_finished : bool
}.

(** The dict returned by [submit_trial]. *)
Record TrialOutcome : Type := mkOutcome {
  out_correct : bool;
  out_finished : bool;
  out_next_state : StateView
}.

(** ** CorsiEngine *)

(** [__init__] *)
Definition init (info : CandidateInfo) : CorsiEngine :=
  {| candidate_info := info;
     results := [];
     current_span := MIN_SPAN;
     current_trial := 1;
     finished := false |}.

Definition _state (self : CorsiEngine) : StateView :=
  {| st_span_length := current_span self;
     st_trial_number := current_trial self;
     st_finished := finished self |}.

Definition start_session (self : CorsiEngine) : StateView := _state self.

(** [new_sequence]: [sample] is what [random.sample] draws; the call
    raises [ValueError] when asked for more items than the population has
    (or for a negative number of them). *)
Definition new_sequence (self : CorsiEngine) (sample : list Z) : Result (list Z) :=
  if decide (0 ≤ current_span self ≤ NUM_BLOCKS) then Ok sample
  else Raise ValueError.

(** The records of [rs] taken at span [s]:
    [[r for r in rs if r["span_length"] == s]]. *)
Definition at_span (s : Z) (rs : list TrialRecord) : list TrialRecord :=
  filter (λ r, span_length r = s) rs.

(** [sum(r["correct"] for r in rs)] *)
Definition sum_correct (rs : list TrialRecord) : Z :=
  py_sum (map (λ r, Z.b2z (correct r)) rs).

Definition set_results (rs : list TrialRecord) (self : CorsiEngine) : CorsiEngine :=
  {| candidate_info := candidate_info self; results := rs;
     current_span := current_span self; current_trial := current_trial self;
     finished := finished self |}.

Definition set_current_span (s : Z) (self : CorsiEngine) : CorsiEngine :=
  {| candidate_info := candidate_info self; results := results self;
     current_span := s; current_trial := current_trial self;
     finished := finished self |}.

Definition set_current_trial (t : Z) (self : CorsiEngine) : CorsiEngine :=
  {| candidate_info := candidate_info self; results := results self;
     current_span := current_span self; current_trial := t;
     finished := finished self |}.

Definition set_finished (b : bool) (self : CorsiEngine) : CorsiEngine :=
  {| candidate_info := candidate_info self; results := results self;
     current_span := current_span self; current_trial := current_trial self;
     finished := b |}.

(** [submit_trial]; [now] is the formatted [datetime.now()]. *)
Definition submit_trial (self : CorsiEngine) (seq resp : list Z) (now : string)
  : CorsiEngine * TrialOutcome :=
  let is_correct := list_eq seq resp in
  let self1 :=
    set_results
      (results self ++
         [ {| span_length := current_span self;
              trial_number := current_trial self;
              sequence := seq;
              response := resp;
              correct := is_correct;
              timestamp := now |} ]) self in
  let span_trials := at_span (current_span self1) (results self1) in
  let self2 :=
    if decide (TRIALS_PER_SPAN ≤ Z.of_nat (length span_trials)) then
      let self' :=
        if decide (sum_correct span_trials = 0) then set_finished true self1
        else if decide (current_span self1 < MAX_SPAN)
             then set_current_span (current_span self1 + 1) self1
             else set_finished true self1 in
      set_current_trial 1 self'
    else set_current_trial (current_trial self1 + 1) self1 in
  (self2,
   {| out_correct := is_correct;
      out_finished := finished self2;
      out_next_state := _state self2 |}).

(** [calculate_corsi_span].  [spans] is a Python set, here a [gset]; the
    loop visits its elements in the order [elements] lists them, and the
    returned value does not depend on that order. *)
Definition spans_of (rs : list TrialRecord) : gset Z :=
  list_to_set (span_length <$> rs).

(** The body of [for span in spans], threading the dict [span_scores]. *)
Fixpoint score_spans (rs : list TrialRecord) (spans : list Z)
    (span_scores : gmap Z Q) : Result (gmap Z Q) :=
  match spans with
  | [] => Ok span_scores
  | span :: rest =>
      let trials := at_span span rs in
      accuracy ← true_div (sum_correct trials) (Z.of_nat (length trials));
      score_spans rs rest
        (if Qle_bool (1 # 2) accuracy then <[span := accuracy]> span_scores
         else span_scores)
  end.

(** [span_scores.keys()] *)
Definition dict_keys (m : gmap Z Q) : list Z := (map_to_list m).*1.

(** [max(span_scores.keys()) if span_scores else 0]: a dict is falsy
    exactly when it has no key. *)
Definition max_key_or_zero (span_scores : gmap Z Q) : Z :=
  match dict_keys span_scores with
  | [] => 0
  | k :: ks => py_max k ks
  end.

Definition calculate_corsi_span (self : CorsiEngine) : Result Z :=
  let spans := spans_of (results self) in
  span_scores ← score_spans (results self) (elements spans) ∅;
  mret (max_key_or_zero span_scores).

(** The dict [session_data] of [save_session]. *)
Record SessionData : Type := mkSession {
  session_number : Z;
  test_date : string;
  corsi_span : Z;
  total_trials : Z;
  correct_trials : Z;
  accuracy : Q;
  data_files : list string
}.

(** The calls [save_session] makes on [self.db].  Both methods of
    [DatabaseManager] catch every exception and return a bool that
    [save_session] drops, so a call is modelled by its entry in the log. *)
Inductive DbCall : Type :=
  | save_candidate (info : CandidateInfo)
  | save_test_session (cid : string) (session_data : SessionData).

(** [save_session]: the returned dict ([None] for the empty dict [{}])
    and the database calls made, in order. *)
Definition save_session (self : CorsiEngine) (now : string)
  : Result (option SessionData * list DbCall) :=
  match results self with
  | [] => Ok (None, [])
  | _ :: _ =>
      let total := Z.of_nat (length (results self)) in
      let n_correct := sum_correct (results self) in
      ratio ← true_div n_correct total;
      let acc := (ratio * 100)%Q in
      span ← calculate_corsi_span self;
      let session_data :=
        {| session_number := session (candidate_info self);
           test_date := now;
           corsi_span := span;
           total_trials := total;
           correct_trials := n_correct;
           accuracy := acc;
           data_files := [] |} in
      Ok (Some session_data,
          [ save_candidate (candidate_info self);
            save_test_session (candidate_id (candidate_info self)) session_data ])
  end.

(** ** The operations of an engine, as a transition system *)

Inductive Op : Type :=
  | OpStartSession
  | OpNewSequence (sample : list Z)
  | OpSubmitTrial (seq resp : list Z) (now : string)
  | OpCalculateCorsiSpan
  | OpSaveSession (now : string).

(** The engine after an operation.  Only [submit_trial] assigns to a field
    of [self]; the others read it. *)
Definition step (self : CorsiEngine) (op : Op) : CorsiEngine :=
  match op with
  | OpSubmitTrial seq resp now => (submit_trial self seq resp now).1
  | OpStartSession | OpNewSequence _ | OpCalculateCorsiSpan | OpSaveSession _ => self
  end.

Definition run (self : CorsiEngine) (ops : list Op) : CorsiEngine :=
  foldl step self ops.

(** Whether an operation raises, and what. *)
Definition raised (self : CorsiEngine) (op : Op) : option PyExn :=
  match op with
  | OpStartSession | OpSubmitTrial _ _ _ => None
  | OpNewSequence sample =>
      match new_sequence self sample with Ok _ => None | Raise e => Some e end
  | OpCalculateCorsiSpan =>
      match calculate_corsi_span self with Ok _ => None | Raise e => Some e end
  | OpSaveSession now =>
      match save_session self now with Ok _ => None | Raise e => Some e end
  end.

(** ** main.py: the request handlers *)

(** What a JSON body holds under a key, against the type the pydantic model
    declares for it. *)
Inductive Field (A : Type) : Type :=
  | Absent
  | Given (a : A)
  | IllTyped.
Arguments Absent {A}.
Arguments Given {A} a.
Arguments IllTyped {A}.

Record CandidateBody : Type := mkBody {
  b_examiner_name : Field string;
  b_candidate_name : Field string;
  b_candidate_id : Field string;
  b_age : Field string;
  b_gender : Field string;
  b_session : Field Z;
  b_additional_notes : Field string
}.

(** A field declared without a default. *)
Definition required {A} (f : Field A) : option A :=
  match f with Given a => Some a | Absent | IllTyped => None end.

(** A field declared with a default. *)
Definition defaulted {A} (d : A) (f : Field A) : option A :=
  match f with Given a => Some a | Absent => Some d | IllTyped => None end.

(** A field declared [str | None = None]. *)
Definition nullable {A} (f : Field A) : option (option A) :=
  match f with Given a => Some (Some a) | Absent => Some None | IllTyped => None end.

(** The validation the declaration of [class CandidateInfo(BaseModel)] asks
    of pydantic: [None] is the 422 answer, given before the handler runs. *)
Definition CandidateInfo_validate (b : CandidateBody) : option CandidateInfo :=
  examiner ← required (b_examiner_name b);
  name ← required (b_candidate_name b);
  cid ← required (b_candidate_id b);
  a ← nullable (b_age b);
  g ← nullable (b_gender b);
  s ← defaulted 1 (b_session b);
  notes ← nullable (b_additional_notes b);
  Some {| examiner_name := examiner; candidate_name := name; candidate_id := cid;
          age := a; gender := g; session := s; additional_notes := notes |}.

(** The answers of the HTTP layer. *)
Inductive Http (A : Type) : Type :=
  | Http200 (a : A)
  | Http404
  | Http422
  | Http500.
Arguments Http200 {A} a.
Arguments Http404 {A}.
Arguments Http422 {A}.
Arguments Http500 {A}.

(** The server: the module-level dict [SESSIONS] and the database log. *)
Record Server : Type := mkServer {
  SESSIONS : gmap string CorsiEngine;
  db_log : list DbCall
}.

(** The body of [start_session(candidate)] in main.py; [uuid] is
    [str(uuid4())]. *)
Definition start_session_handler (srv : Server) (candidate : CandidateInfo)
    (uuid : string) : Server * (string * StateView) :=
  let session_id := uuid in
  let engine := init candidate in
  let sessions := <[session_id := engine]> (SESSIONS srv) in
  let state := start_session engine in
  ({| SESSIONS := sessions; db_log := db_log srv |}, (session_id, state)).

(** POST /api/start-session: pydantic first, then the handler. *)
Definition post_start_session (srv : Server) (body : CandidateBody)
    (uuid : string) : Server * Http (string * StateView) :=
  match CandidateInfo_validate body with
  | None => (srv, Http422)
  | Some candidate =>
      let '(srv', r) := start_session_handler srv candidate uuid in
      (srv', Http200 r)
  end.

(** POST /api/submit-trial.  The engine found in [SESSIONS] is the object
    [submit_trial] mutates, so the dict sees the new state. *)
Definition post_submit_trial (srv : Server) (session_id : string)
    (seq resp : list Z) (now now_saved : string)
  : Server * Http (TrialOutcome * option (option SessionData)) :=
  match SESSIONS srv !! session_id with
  | None => (srv, Http404)
  | Some engine =>
      let '(engine', result) := submit_trial engine seq resp now in
      let sessions := <[session_id := engine']> (SESSIONS srv) in
      if out_finished result then
        match save_session engine' now_saved with
        | Ok (summary, calls) =>
            ({| SESSIONS := sessions; db_log := db_log srv ++ calls |},
             Http200 (result, Some summary))
        | Raise _ => ({| SESSIONS := sessions; db_log := db_log srv |}, Http500)
        end
      else ({| SESSIONS := sessions; db_log := db_log srv |},
            Http200 (result, None))
  end.

(** ** utils/validation.py: the check of the desktop task *)

Section Validation.

(** [int(s)] on a string, [None] for [ValueError]. *)
Variable py_int : string → option Z.

(** [info[key]] *)
Definition getitem (info : gmap string string) (key : string) : Result string :=
  match info !! key with
  | Some v => Ok v
  | None => Raise KeyError
  end.

(** [not s] on a string *)
Definition str_falsy (s : string) : bool :=
  match s with EmptyString => true | String _ _ => false end.

Definition validate_candidate_info (info : gmap string string) : Result bool :=
  name ← getitem info "candidate_name";
  if str_falsy name then Ok false else
  cid ← getitem info "candidate_id";
  if str_falsy cid then Ok false else
  raw ← getitem info "session";
  match py_int raw with
  | None => Ok false
  | Some n => if decide (n < 1) then Ok false else Ok true
  end.

End Validation.

(** ** task/corsi_task.py: the score of the desktop task *)

Module CorsiTask.

(** One entry of [self.results], as [TrialRunner._record_trial_result]
    builds it: the two lists are stored joined into strings. *)
Record TrialResult : Type := mkResult {
  candidate_name : string;
  candidate_id : string;
  age : string;
  gender : string;
  examiner_name : string;
  span_length : Z;
  trial_number : Z;
  sequence : string;
  response : string;
  correct : bool;
  timestamp : string
}.

(** The body of [for span in set(...)]. *)
Fixpoint score_spans (results : list TrialResult) (spans : list Z)
    (span_scores : gmap Z Q) : Result (gmap Z Q) :=
  match spans with
  | [] => Ok span_scores
  | span :: rest =>
      let span_trials := filter (λ r, span_length r = span) results in
      accuracy ← true_div (py_sum (map (λ t, Z.b2z (correct t)) span_trials))
                          (Z.of_nat (length span_trials));
      score_spans results rest
        (if Qle_bool (1 # 2) accuracy then <[span := accuracy]> span_scores
         else span_scores)
  end.

(** [CorsiTask.calculate_corsi_span], over [self.results]. *)
Definition calculate_corsi_span (results : list TrialResult) : Result Z :=
  let spans : gset Z := list_to_set (span_length <$> results) in
  span_scores ← score_spans results (elements spans) ∅;
  mret (max_key_or_zero span_scores).

End CorsiTask.

(** What the score reads of a desktop record, as a record of the engine. *)
Definition as_trial_record (r : CorsiTask.TrialResult) : TrialRecord :=
  {| span_length := CorsiTask.span_length r;
     trial_number := CorsiTask.trial_number r;
     sequence := [];
     response := [];
     correct := CorsiTask.correct r;
     timestamp := CorsiTask.timestamp r |}.

(** ** Definitions used to state the properties *)

(** The record a call appends. *)
Definition recorded (self : CorsiEngine) (seq resp : list Z) (now : string)
  : TrialRecord :=
  {| span_length := current_span self;
     trial_number := current_trial self;
     sequence := seq;
     response := resp;
     correct := list_eq seq resp;
     timestamp := now |}.

(** What holds of every engine reached from [init]: the span is in range,
    no record lies above the current span, and the trial counter is one
    more than the number of records of the current span while that number
    is below [TRIALS_PER_SPAN] (and 1 otherwise). *)
Record engine_inv (e : CorsiEngine) : Prop := mkInv {
  inv_span : MIN_SPAN ≤ current_span e ≤ MAX_SPAN;
  inv_below : ∀ r, r ∈ results e → span_length r ≤ current_span e;
  inv_trial :
    (Z.of_nat (length (at_span (current_span e) (results e))) < TRIALS_PER_SPAN ∧
     current_trial e = Z.of_nat (length (at_span (current_span e) (results e))) + 1)
    ∨ (TRIALS_PER_SPAN ≤ Z.of_nat (length (at_span (current_span e) (results e))) ∧
       current_trial e = 1)
}.

(** The score as the specification words it: partition the records by span;
    the accuracy of a span present in the records is its number of correct
    records over its number of records; a span qualifies when that accuracy
    is at least one half. *)
Definition trial_count (rs : list TrialRecord) (s : Z) : Z :=
  Z.of_nat (length (filter (λ r, span_length r = s) rs)).

Definition correct_count (rs : list TrialRecord) (s : Z) : Z :=
  Z.of_nat (length (filter (λ r, correct r = true ∧ span_length r = s) rs)).

Definition span_accuracy (rs : list TrialRecord) (s : Z) : Q :=
  (inject_Z (correct_count rs s) / inject_Z (trial_count rs s))%Q.

Definition span_present (rs : list TrialRecord) (s : Z) : Prop :=
  ∃ r, r ∈ rs ∧ span_length r = s.

Definition qualifies (rs : list TrialRecord) (s : Z) : Prop :=
  span_present rs s ∧ (1 # 2 <= span_accuracy rs s)%Q.

(** ** Concrete sessions *)

Definition example_candidate : CandidateInfo :=
  {| examiner_name := "Examiner"; candidate_name := "Candidate";
     candidate_id := "C001"; age := None; gender := None; session := 1;
     additional_notes := None |}.

Definition right_answer (now : string) : Op := OpSubmitTrial [2; 5; 1] [2; 5; 1] now.
Definition wrong_answer (now : string) : Op := OpSubmitTrial [2; 5; 1] [2; 1; 5] now.

(** One wrong answer at span 2. *)
Definition one_failure : CorsiEngine :=
  run (init example_candidate) [wrong_answer "t1"].

(** Both answers wrong at span 2: the session is over. *)
Definition two_failures : CorsiEngine :=
  run (init example_candidate) [wrong_answer "t1"; wrong_answer "t2"].

(** One right answer at span 2. *)
Definition one_success : CorsiEngine :=
  run (init example_candidate) [right_answer "t1"].

(** Spans 2 to 7 passed, one right answer at span 8. *)
Definition near_ceiling : CorsiEngine :=
  run (init example_candidate)
    (replicate 12 (right_answer "t") ++ [right_answer "t13"]).

(** Spans 2, 3 and 4 passed without a fault, both answers wrong at span 5. *)
Definition stopped_at_five : CorsiEngine :=
  run (init example_candidate)
    (replicate 6 (right_answer "t") ++ [wrong_answer "t7"; wrong_answer "t8"]).

(** The first scenario of the specification: 2/2 at span 2, 1/2 at span 3,
    0/2 at span 4. *)
Definition scenario_one : CorsiEngine :=
  run (init example_candidate)
    [right_answer "t1"; right_answer "t2"; right_answer "t3"; wrong_answer "t4";
     wrong_answer "t5"; wrong_answer "t6"].

(** ** Sessions still open *)

Definition is_submit (op : Op) : bool :=
  match op with OpSubmitTrial _ _ _ => true | _ => false end.

(** The number of [submit_trial] calls among operations. *)
Definition submits (ops : list Op) : nat :=
  length (filter (λ op, is_submit op = true) ops).

(** What holds of an engine reached from [init] and not yet finished: every
    span below the current one has its [TRIALS_PER_SPAN] records, one of them
    correct, and the current span has [current_trial - 1] records. *)
Record session_inv (e : CorsiEngine) : Prop := mkSessionInv {
  open_unfinished : finished e = false;
  open_span : MIN_SPAN ≤ current_span e ≤ MAX_SPAN;
  open_records : ∀ r, r ∈ results e →
    MIN_SPAN ≤ span_length r ≤ current_span e ∧
    1 ≤ trial_number r ≤ TRIALS_PER_SPAN;
  open_passed : ∀ s, MIN_SPAN ≤ s < current_span e →
    Z.of_nat (length (at_span s (results e))) = TRIALS_PER_SPAN ∧
    sum_correct (at_span s (results e)) ≠ 0;
  open_current :
    Z.of_nat (length (at_span (current_span e) (results e))) = current_trial e - 1 ∧
    1 ≤ current_trial e ≤ TRIALS_PER_SPAN;
  open_length :
    Z.of_nat (length (results e))
    = TRIALS_PER_SPAN * (current_span e - MIN_SPAN) + (current_trial e - 1)
}.

(** ** main.py: the other handlers, and a session served over time *)

(** GET /api/sequence/{session_id}; [sample] is what [random.sample] draws
    in [new_sequence], whose exception the framework answers with 500. *)
Definition get_sequence (srv : Server) (session_id : string) (sample : list Z)
  : Http (list Z * StateView) :=
  match SESSIONS srv !! session_id with
  | None => Http404
  | Some engine =>
      match new_sequence engine sample with
      | Ok seq => Http200 (seq, _state engine)
      | Raise _ => Http500
      end
  end.

(** One submit-trial request for a session: the body and the two clock
    readings taken while it is handled. *)
Record TrialRequest : Type := mkRequest {
  req_sequence : list Z;
  req_response : list Z;
  req_now : string;
  req_now_saved : string
}.

Definition trial_op (req : TrialRequest) : Op :=
  OpSubmitTrial (req_sequence req) (req_response req) (req_now req).

(** The server after a series of submit-trial requests for one session. *)
Definition serve (srv : Server) (session_id : string) (reqs : list TrialRequest)
  : Server :=
  foldl (λ srv req,
           (post_submit_trial srv session_id (req_sequence req) (req_response req)
              (req_now req) (req_now_saved req)).1)
        srv reqs.

(** The first scenario of the specification before its last trial. *)
Definition scenario_open : CorsiEngine :=
  run (init example_candidate)
    [right_answer "t1"; right_answer "t2"; right_answer "t3"; wrong_answer "t4";
     wrong_answer "t5"].

Definition example_body : CandidateBody :=
  {| b_examiner_name := Given "Examiner"; b_candidate_name := Given "Candidate";
     b_candidate_id := Given "C001"; b_age := Absent; b_gender := Absent;
     b_session := Absent; b_additional_notes := Absent |}.

(** A server with one session, just started. *)
Definition example_server : Server :=
  (post_start_session {| SESSIONS := ∅; db_log := [] |} example_body "id-1").1.

Definition wrong_request (now : string) : TrialRequest :=
  {| req_sequence := [2; 5; 1]; req_response := [2; 1; 5];
     req_now := now; req_now_saved := now |}.

(** A stand-in for [int] on the strings of the examples. *)
Definition example_int (s : string) : option Z :=
  if decide (s = "1") then Some 1 else if decide (s = "0") then Some 0 else None.

Definition example_info (session : string) : gmap string string :=
  {[ "candidate_name" := "Candidate"; "candidate_id" := "C001";
     "session" := session ]}.

(** ** corsi-backend/database_manager.py: the two writes

    The SQLite file is modelled by its two tables: [candidates], keyed by
    its primary key [candidate_id], and [test_sessions], whose rows are
    kept in insertion order (the AUTOINCREMENT key [session_id] of a row is
    its place in that order, the code deleting nothing).  Each method opens
    a connection, runs its statements and commits; whatever SQLite raises
    on the way is caught, the method returns [False] and, nothing being
    committed, the file is as it was.  [io_ok] says whether SQLite serves
    the call.  [total_sessions] is an SQLite INTEGER, here [Z]. *)

Module DatabaseManager.

Record CandidateRow : Type := mkCandidateRow {
  row_candidate_name : string;
  row_age : option string;
  row_gender : option string;
  row_examiner_name : option string;
  row_additional_notes : option string;
  row_date_created : string;
  row_total_sessions : Z;
  row_last_session_date : option string
}.

Record SessionRow : Type := mkSessionRow {
  ses_candidate_id : string;
  ses_session_number : Z;
  ses_test_date : string;
  ses_corsi_span : Z;
  ses_total_trials : Z;
  ses_correct_trials : Z;
  ses_accuracy : Q;
  ses_data_files : string
}.

Record Database : Type := mkDatabase {
  candidates : gmap string CandidateRow;
  test_sessions : list SessionRow
}.

(** The file after [initialize_database] on a new file. *)
Definition empty : Database := {| candidates := ∅; test_sessions := [] |}.

Section Writes.

(** [json.dumps] on a list of strings. *)
Variable json_dumps : list string → string.

(** Whether the SQLite build enforces foreign keys; the code leaves the
    pragma at its default. *)
Variable foreign_keys : bool.

(** [save_candidate]: SELECT by id, then UPDATE the row found or INSERT a
    new one; [now] is the formatted [datetime.now()]. *)
Definition save_candidate (db : Database) (candidate_info : CandidateInfo)
    (now : string) (io_ok : bool) : Database * bool :=
  if io_ok then
    let cid := candidate_id candidate_info in
    let row :=
      match candidates db !! cid with
      | Some existing =>
          {| row_candidate_name := candidate_name candidate_info;
             row_age := age candidate_info;
             row_gender := gender candidate_info;
             row_examiner_name := Some (examiner_name candidate_info);
             row_additional_notes := additional_notes candidate_info;
             row_date_created := row_date_created existing;
             row_total_sessions := row_total_sessions existing;
             row_last_session_date := Some now |}
      | None =>
          {| row_candidate_name := candidate_name candidate_info;
             row_age := age candidate_info;
             row_gender := gender candidate_info;
             row_examiner_name := Some (examiner_name candidate_info);
             row_additional_notes := additional_notes candidate_info;
             row_date_created := now;
             row_total_sessions := 0;
             row_last_session_date := Some now |}
      end in
    ({| candidates := <[cid := row]> (candidates db);
        test_sessions := test_sessions db |}, true)
  else (db, false).

(** [save_test_session]: UPDATE the candidate's counter and date (no row,
    no change), then INSERT the session; with foreign keys enforced the
    INSERT for an unknown candidate raises. *)
Definition save_test_session (db : Database) (cid : string)
    (session_data : SessionData) (io_ok : bool) : Database * bool :=
  if io_ok then
    let updated :=
      match candidates db !! cid with
      | Some row =>
          <[cid := {| row_candidate_name := row_candidate_name row;
                      row_age := row_age row;
                      row_gender := row_gender row;
                      row_examiner_name := row_examiner_name row;
                      row_additional_notes := row_additional_notes row;
                      row_date_created := row_date_created row;
                      row_total_sessions := row_total_sessions row + 1;
                      row_last_session_date := Some (test_date session_data) |}]>
            (candidates db)
      | None => candidates db
      end in
    if foreign_keys && bool_decide (candidates db !! cid = None) then (db, false)
    else
      ({| candidates := updated;
          test_sessions :=
            test_sessions db ++
            [ {| ses_candidate_id := cid;
                 ses_session_number := session_number session_data;
                 ses_test_date := test_date session_data;
                 ses_corsi_span := corsi_span session_data;
                 ses_total_trials := total_trials session_data;
                 ses_correct_trials := correct_trials session_data;
                 ses_accuracy := accuracy session_data;
                 ses_data_files := json_dumps (data_files session_data) |} ] |},
       true)
  else (db, false).

End Writes.

(** The sessions of a candidate. *)
Definition sessions_of (db : Database) (cid : string) : list SessionRow :=
  filter (λ row, ses_candidate_id row = cid) (test_sessions db).

(** The counter of every candidate is the number of the sessions stored
    for it, and no session is stored for a candidate that has no row. *)
Definition consistent (db : Database) : Prop :=
  ∀ cid,
    Z.of_nat (length (sessions_of db cid))
    = match candidates db !! cid with
      | Some row => row_total_sessions row
      | None => 0
      end.

End DatabaseManager.

(** One call of the log of [CorsiEngine.save_session], carried out; [now]
    is the clock as the call reads it. *)
Definition perform (json_dumps : list string → string) (foreign_keys : bool)
    (db : DatabaseManager.Database) (call : DbCall) (now : string) (io_ok : bool)
  : DatabaseManager.Database * bool :=
  match call with
  | save_candidate info =>
      DatabaseManager.save_candidate db info now io_ok
  | save_test_session cid session_data =>
      DatabaseManager.save_test_session json_dumps foreign_keys db cid session_data io_ok
  end.

(** The log carried out in order, each call with its clock reading and
    with SQLite serving it or not; [save_session] drops the results. *)
Fixpoint perform_all (json_dumps : list string → string) (foreign_keys : bool)
    (db : DatabaseManager.Database) (calls : list DbCall)
    (env : list (string * bool)) : DatabaseManager.Database :=
  match calls, env with
  | call :: calls', (now, io_ok) :: env' =>
      perform_all json_dumps foreign_keys
        (perform json_dumps foreign_keys db call now io_ok).1 calls' env'
  | _, _ => db
  end.

(** ** The desktop task: block layout and the subject's response

    config.py, [CorsiTask.generate_random_block_positions] and the
    response loop of [TrialRunner].  config.py gives [MIN_SPAN], [MAX_SPAN],
    [TRIALS_PER_SPAN] and [NUM_BLOCKS] the values they have in the engine.
    Positions are pairs of ints.  The
    test [np.sqrt(n) >= MIN_BLOCK_DISTANCE] on an int [n] is the test
    [n >= MIN_BLOCK_DISTANCE ** 2]: the square root of a double is rounded
    correctly, hence monotone, and that of 14400 is exactly 120.  Mouse
    positions are doubles, here rationals; [abs(m - b) < 40.0] computed in
    doubles implies the same test on the exact difference, subtraction
    being rounded monotonically and 40 being a double. *)

Definition BLOCK_SIZE : Z := 80.
Definition MIN_BLOCK_DISTANCE : Z := 120.

Definition x_range : list Z := [-350; -200; -50; 50; 200; 350].
Definition y_range : list Z := [-250; -100; 50; 100; 250].
Definition max_attempts : nat := 1000.

(** [random.choice(seq)]: the item at an index drawn below [len(seq)];
    [i] is the random number behind it. *)
Definition choice (seq : list Z) (i : nat) : Z :=
  nth (i mod length seq) seq 0.

(** [np.sqrt((x - ex)**2 + (y - ey)**2) >= MIN_BLOCK_DISTANCE] *)
Definition far_enough (pos other : Z * Z) : bool :=
  MIN_BLOCK_DISTANCE * MIN_BLOCK_DISTANCE
  <=? (pos.1 - other.1) ^ 2 + (pos.2 - other.2) ^ 2.

(** The [while] loop of [generate_random_block_positions], with
    [attempts_left] standing for [max_attempts - attempts]; [draw] gives the
    two random numbers of each attempt. *)
Fixpoint place_blocks (draw : nat → nat * nat) (attempts_left attempts : nat)
    (positions : list (Z * Z)) : list (Z * Z) :=
  match attempts_left with
  | O => positions
  | S attempts_left' =>
      if decide (Z.of_nat (length positions) < NUM_BLOCKS) then
        let x := choice x_range (draw attempts).1 in
        let y := choice y_range (draw attempts).2 in
        let pos := (x, y) in
        let positions' :=
          if forallb (far_enough pos) positions then positions ++ [pos]
          else positions in
        place_blocks draw attempts_left' (S attempts) positions'
      else positions
  end.

Definition generate_random_block_positions (draw : nat → nat * nat)
  : list (Z * Z) :=
  place_blocks draw max_attempts 0 [].

(** [a < b] on rationals. *)
Definition Qlt_bool (a b : Q) : bool := negb (Qle_bool b a).

(** [TrialRunner._is_click_on_block] *)
Definition _is_click_on_block (mouse_pos : Q * Q) (block_pos : Z * Z) : bool :=
  let half_size := (inject_Z BLOCK_SIZE / 2)%Q in
  Qlt_bool (Qabs (mouse_pos.1 - inject_Z block_pos.1)) half_size
  && Qlt_bool (Qabs (mouse_pos.2 - inject_Z block_pos.2)) half_size.

(** What [_check_quit_keys] does with the keys [event.getKeys] hands it:
    leave the program on escape, report a quit on q, go on otherwise. *)
Inductive QuitCheck : Type :=
  | QuitExit
  | QuitToMenu
  | QuitNo.

Definition _check_quit_keys (keys : list string) : QuitCheck :=
  if decide ("escape" ∈ keys) then QuitExit
  else if decide ("q" ∈ keys ∨ "Q" ∈ keys) then QuitToMenu
  else QuitNo.

(** What one turn of the response loop finds: the quit keys, the replay
    keys, whether the left button is down, and where the mouse is. *)
Record Poll : Type := mkPoll {
  quit_keys : list string;
  replay_keys : list string;
  pressed : bool;
  mouse_pos : Q * Q
}.

(** The inner [for i, block in enumerate(blocks)] of a click: the first
    block under the mouse is appended unless it is in the response
    already; [i] is the index of the head of [blocks]. *)
Fixpoint click (mouse : Q * Q) (blocks : list (Z * Z)) (i : Z)
    (response_sequence : list Z) : list Z :=
  match blocks with
  | [] => response_sequence
  | block :: rest =>
      if _is_click_on_block mouse block then
        if decide (i ∈ response_sequence) then response_sequence
        else response_sequence ++ [i]
      else click mouse rest (i + 1) response_sequence
  end.

(** How [_get_participant_response] ends: by leaving the program, with
    [None], with the response, or not within the turns given. *)
Inductive ResponseEnd : Type :=
  | ResponseExit
  | ResponseNone
  | ResponseGiven (response : list Z)
  | ResponseWaiting.

(** The [while] loop of [_get_participant_response], one [Poll] a turn. *)
Fixpoint response_loop (span_length : Z) (blocks : list (Z * Z))
    (polls : list Poll) (response_sequence : list Z) : ResponseEnd :=
  if decide (Z.of_nat (length response_sequence) < span_length) then
    match polls with
    | [] => ResponseWaiting
    | poll :: polls' =>
        match _check_quit_keys (quit_keys poll) with
        | QuitExit => ResponseExit
        | QuitToMenu => ResponseNone
        | QuitNo =>
            match replay_keys poll with
            | _ :: _ => response_loop span_length blocks polls' []
            | [] =>
                if pressed poll then
                  response_loop span_length blocks polls'
                    (click (mouse_pos poll) blocks 0 response_sequence)
                else response_loop span_length blocks polls' response_sequence
            end
        end
    end
  else ResponseGiven response_sequence.

Definition _get_participant_response (span_length : Z) (blocks : list (Z * Z))
    (polls : list Poll) : ResponseEnd :=
  response_loop span_length blocks polls [].

(** What the placement loop keeps: no more than [NUM_BLOCKS] positions,
    all on the grid, no two of them the same or too close. *)
Record layout_inv (positions : list (Z * Z)) : Prop := mkLayoutInv {
  layout_length : Z.of_nat (length positions) ≤ NUM_BLOCKS;
  layout_grid : ∀ p, p ∈ positions → p.1 ∈ x_range ∧ p.2 ∈ y_range;
  layout_nodup : NoDup positions;
  layout_far : ∀ p q, p ∈ positions → q ∈ positions → p ≠ q → far_enough p q = true
}.

(** ** The desktop task: one trial and the main test

    [TrialRunner.run_single_trial] with the functions it calls, and
    [CorsiTask.run_main_test].  Drawing on the screen and waiting leave no
    trace in the results and are left out.  What a trial meets of the
    outside is gathered in a [TrialEnv].  A run is cut short by [exit()],
    by an exception, or by a response loop still waiting when the recorded
    turns are used up. *)

Inductive Halt : Type :=
  | HaltExit
  | HaltValueError
  | HaltIndexError
  | HaltKeyError
  | HaltWaiting.

Record TrialEnv : Type := mkTrialEnv {
  env_draw : nat → nat * nat;
  env_sample : list Z;
  env_show_keys : nat → list string;
  env_polls : list Poll;
  env_now : string
}.

(** [random.sample(range(n), k)], [drawn] being the sample. *)
Definition random_sample (n : nat) (k : Z) (drawn : list Z) : Halt + list Z :=
  if decide (0 ≤ k ≤ Z.of_nat n) then inr drawn else inl HaltValueError.

(** Whether [blocks[block_idx]] is an item of a list of [n] blocks. *)
Definition valid_index (n : nat) (block_idx : Z) : bool :=
  bool_decide (- Z.of_nat n ≤ block_idx < Z.of_nat n).

(** [_show_sequence]; [i] counts the blocks shown so far. *)
Fixpoint _show_sequence (sequence : list Z) (n_blocks : nat)
    (keys : nat → list string) (i : nat) : Halt + bool :=
  match sequence with
  | [] => inr true
  | block_idx :: rest =>
      match _check_quit_keys (keys i) with
      | QuitExit => inl HaltExit
      | QuitToMenu => inr false
      | QuitNo =>
          if valid_index n_blocks block_idx
          then _show_sequence rest n_blocks keys (S i)
          else inl HaltIndexError
      end
  end.

(** ['-'.join(map(str, xs))] *)
Definition join_ints (xs : list Z) : string :=
  String.concat "-" (pretty <$> xs).

(** [_record_trial_result]: the record appended to [results]. *)
Definition _record_trial_result (span_length trial_num : Z)
    (sequence response : list Z) (exp_info : gmap string string) (now : string)
    (results : list CorsiTask.TrialResult)
  : Halt + list CorsiTask.TrialResult :=
  match exp_info !! "candidate_name", exp_info !! "candidate_id",
        exp_info !! "age", exp_info !! "gender", exp_info !! "examiner_name" with
  | Some name, Some cid, Some a, Some g, Some examiner =>
      inr (results ++
           [ {| CorsiTask.candidate_name := name;
                CorsiTask.candidate_id := cid;
                CorsiTask.age := a;
                CorsiTask.gender := g;
                CorsiTask.examiner_name := examiner;
                CorsiTask.span_length := span_length;
                CorsiTask.trial_number := trial_num;
                CorsiTask.sequence := join_ints sequence;
                CorsiTask.response := join_ints response;
                CorsiTask.correct := list_eq response sequence;
                CorsiTask.timestamp := now |} ])
  | _, _, _, _, _ => inl HaltKeyError
  end.

(** [run_single_trial]: the list [results] after the call, and how the call
    ended. *)
Definition run_single_trial (span_length trial_num : Z) (sequence : list Z)
    (blocks : list (Z * Z)) (exp_info : gmap string string) (env : TrialEnv)
    (results : list CorsiTask.TrialResult)
  : list CorsiTask.TrialResult * (Halt + bool) :=
  match _show_sequence sequence (length blocks) (env_show_keys env) 0 with
  | inl h => (results, inl h)
  | inr false => (results, inr false)
  | inr true =>
      match _get_participant_response span_length blocks (env_polls env) with
      | ResponseExit => (results, inl HaltExit)
      | ResponseWaiting => (results, inl HaltWaiting)
      | ResponseNone => (results, inr false)
      | ResponseGiven response =>
          match _record_trial_result span_length trial_num sequence response
                  exp_info (env_now env) results with
          | inl h => (results, inl h)
          | inr results' => (results', inr true)
          end
      end
  end.

(** The body of [for trial_num in range(TRIALS_PER_SPAN)] in
    [run_main_test], over the trial numbers still to come.  It ends with
    [None] when a trial reports a quit, else with [span_results]. *)
Fixpoint span_loop (env : Z → Z → TrialEnv) (exp_info : gmap string string)
    (span_length : Z) (trial_nums : list Z)
    (results : list CorsiTask.TrialResult) (span_results : list bool)
  : list CorsiTask.TrialResult * (Halt + option (list bool)) :=
  match trial_nums with
  | [] => (results, inr (Some span_results))
  | trial_num :: rest =>
      let e := env span_length (trial_num + 1) in
      let blocks := generate_random_block_positions (env_draw e) in
      match random_sample (length blocks) span_length (env_sample e) with
      | inl h => (results, inl h)
      | inr sequence =>
          match run_single_trial span_length (trial_num + 1) sequence blocks
                  exp_info e results with
          | (results', inl h) => (results', inl h)
          | (results', inr false) => (results', inr None)
          | (results', inr true) =>
              match last results' with
              | None => (results', inl HaltIndexError)
              | Some r =>
                  span_loop env exp_info span_length rest results'
                    (span_results ++ [CorsiTask.correct r])
              end
          end
      end
  end.

(** The [for span_length in range(MIN_SPAN, MAX_SPAN + 1)] of
    [run_main_test], over the spans still to come. *)
Fixpoint main_loop (env : Z → Z → TrialEnv) (exp_info : gmap string string)
    (spans : list Z) (results : list CorsiTask.TrialResult)
  : list CorsiTask.TrialResult * (Halt + bool) :=
  match spans with
  | [] => (results, inr true)
  | span_length :: rest =>
      match span_loop env exp_info span_length (seqZ 0 TRIALS_PER_SPAN)
              results [] with
      | (results', inl h) => (results', inl h)
      | (results', inr None) => (results', inr false)
      | (results', inr (Some span_results)) =>
          if decide (py_sum (Z.b2z <$> span_results) = 0) then (results', inr true)
          else main_loop env exp_info rest results'
      end
  end.

(** [run_main_test], on the list [self.results] as it is at the call
    ([run_corsi_task] empties it first). *)
Definition run_main_test (env : Z → Z → TrialEnv) (exp_info : gmap string string)
    (results : list CorsiTask.TrialResult)
  : list CorsiTask.TrialResult * (Halt + bool) :=
  main_loop env exp_info (seqZ MIN_SPAN (MAX_SPAN + 1 - MIN_SPAN)) results.

(** A desktop record and an engine record tell the same of a trial. *)
Definition same_trial (r : TrialRecord) (d : CorsiTask.TrialResult) : Prop :=
  span_length r = CorsiTask.span_length d ∧
  trial_number r = CorsiTask.trial_number d ∧
  correct r = CorsiTask.correct d.

(** A call of [submit_trial] that scores as the desktop record did. *)
Definition answers_like (op : Op) (d : CorsiTask.TrialResult) : Prop :=
  ∃ seq resp now, op = OpSubmitTrial seq resp now ∧
                  list_eq seq resp = CorsiTask.correct d.

(** ** A concrete desktop trial *)

(** The draws of a layout: attempt [k] draws the indices [k] and [k]. *)
Definition example_draw (k : nat) : nat * nat := (k, k).

Definition click_at (x y : Z) : Poll :=
  {| quit_keys := []; replay_keys := []; pressed := true;
     mouse_pos := ((inject_Z x + (1 # 2))%Q, (inject_Z y - (1 # 3))%Q) |}.

(** A trial shown blocks 0 and 1 and answered with blocks 1 and 0. *)
Definition example_trial_env : TrialEnv :=
  {| env_draw := example_draw;
     env_sample := [0; 1];
     env_show_keys := λ _, [];
     env_polls := [click_at (-200) (-100); click_at (-350) (-250)];
     env_now := "2024-01-01 10:00:00" |}.

Definition example_exp_info : gmap string string :=
  {[ "examiner_name" := "Examiner"; "candidate_name" := "Candidate";
     "candidate_id" := "C001"; "age" := "30"; "gender" := "Other";
     "session" := "1"; "additional_notes" := "" ]}.

(** [json.dumps] on the one list the engine stores. *)
Definition example_json_dumps (files : list string) : string := "[]".

(** * Properties *)

(** ** The builtins *)

Lemma items_eq_same_length v w :
  length v = length w → (items_eq v w = true ↔ v = w).
Proof.
  revert w. induction v as [|x v IH]; intros [|y w] Hlen; simpl in *; try done.
  destruct (Z.eqb_spec x y) as [->|Hne].
  - rewrite IH by lia. split; [by intros -> | by intros [= ->]].
  - split; [done | by intros [= ? _]].
Qed.

(** Python's [==] on lists of ints decides equality of the lists. *)
Lemma list_eq_spec v w : list_eq v w = true ↔ v = w.
Proof.
  unfold list_eq. destruct (Nat.eqb_spec (length v) (length w)) as [Hlen|Hlen].
  - by apply items_eq_same_length.
  - split; [done | intros ->; done].
Qed.

Lemma list_eq_length v w : length v ≠ length w → list_eq v w = false.
Proof.
  intros Hlen. unfold list_eq.
  by destruct (Nat.eqb_spec (length v) (length w)).
Qed.

Lemma foldl_add_shift a xs : foldl Z.add a xs = a + py_sum xs.
Proof.
  unfold py_sum. revert a. induction xs as [|x xs IH]; intros a; simpl.
  - lia.
  - rewrite (IH (a + x)), (IH (0 + x)). lia.
Qed.

Lemma py_sum_cons x xs : py_sum (x :: xs) = x + py_sum xs.
Proof. unfold py_sum at 1. simpl. apply foldl_add_shift. Qed.

Lemma py_max_shift a x xs : Z.max a (py_max x xs) = py_max (Z.max a x) xs.
Proof.
  unfold py_max. revert a x. induction xs as [|y xs IH]; intros a x; simpl; [done|].
  rewrite IH. f_equal.
  destruct (Z.ltb_spec x y), (Z.ltb_spec (Z.max a x) y); lia.
Qed.

Lemma py_max_cons x y xs : py_max x (y :: xs) = Z.max x (py_max y xs).
Proof.
  rewrite py_max_shift. unfold py_max. simpl. f_equal.
  destruct (Z.ltb_spec x y); lia.
Qed.

Lemma py_max_elem x xs : py_max x xs ∈ x :: xs.
Proof.
  revert x. induction xs as [|y xs IH]; intros x.
  - apply list_elem_of_here.
  - rewrite py_max_cons.
    destruct (Z.max_spec x (py_max y xs)) as [[_ ->]|[_ ->]].
    + apply list_elem_of_further, IH.
    + apply list_elem_of_here.
Qed.

Lemma py_max_upper x xs y : y ∈ x :: xs → y ≤ py_max x xs.
Proof.
  revert x. induction xs as [|z xs IH]; intros x Hy.
  - apply list_elem_of_singleton in Hy as ->. unfold py_max. simpl. lia.
  - rewrite py_max_cons. apply elem_of_cons in Hy as [->|Hy]; [lia|].
    specialize (IH z Hy). lia.
Qed.

(** ** Counting the records of a span *)

Lemma sum_correct_cons r rs :
  sum_correct (r :: rs) = Z.b2z (correct r) + sum_correct rs.
Proof. unfold sum_correct. simpl. apply py_sum_cons. Qed.

(** [sum] over the [correct] flags counts the correct records. *)
Lemma sum_correct_count rs :
  sum_correct rs = Z.of_nat (length (filter (λ r, correct r = true) rs)).
Proof.
  induction rs as [|r rs IH]; [done|].
  rewrite sum_correct_cons, IH, filter_cons.
  destruct (decide (correct r = true)) as [->|Hc]; simpl.
  - lia.
  - by destruct (correct r).
Qed.

Lemma sum_correct_bounds rs : 0 ≤ sum_correct rs ≤ Z.of_nat (length rs).
Proof.
  rewrite sum_correct_count.
  pose proof (length_filter (λ r, correct r = true) rs). lia.
Qed.

Lemma sum_correct_zero rs :
  sum_correct rs = 0 ↔ ∀ r, r ∈ rs → correct r = false.
Proof.
  induction rs as [|r rs IH].
  - split; [intros _ r Hr; by apply not_elem_of_nil in Hr | done].
  - rewrite sum_correct_cons. pose proof (sum_correct_bounds rs) as Hb. split.
    + intros Hs r' Hr'. apply elem_of_cons in Hr' as [->|Hr'].
      * destruct (correct r); simpl in Hs; [lia | done].
      * apply IH; [|done]. destruct (correct r); simpl in Hs; lia.
    + intros Hall. rewrite (Hall r) by apply list_elem_of_here. simpl.
      apply IH. intros r' Hr'. apply Hall. by apply list_elem_of_further.
Qed.

Lemma sum_correct_pos rs :
  sum_correct rs ≠ 0 ↔ ∃ r, r ∈ rs ∧ correct r = true.
Proof.
  split.
  - induction rs as [|r rs IH]; [done|].
    rewrite sum_correct_cons. destruct (correct r) eqn:Hc.
    + intros _. exists r. split; [apply list_elem_of_here | done].
    + simpl. intros Hs. destruct IH as (r' & Hr' & Hc'); [lia|].
      exists r'. split; [by apply list_elem_of_further | done].
  - intros (r & Hr & Hc) Hs.
    rewrite sum_correct_zero in Hs. rewrite (Hs r Hr) in Hc. done.
Qed.

Lemma at_span_app s rs1 rs2 : at_span s (rs1 ++ rs2) = at_span s rs1 ++ at_span s rs2.
Proof. apply filter_app. Qed.

Lemma elem_of_at_span s rs r : r ∈ at_span s rs ↔ span_length r = s ∧ r ∈ rs.
Proof. unfold at_span. by rewrite list_elem_of_filter. Qed.

(** ** One call of [submit_trial] *)

Lemma submit_trial_results self seq resp now :
  results (submit_trial self seq resp now).1
  = results self ++ [recorded self seq resp now].
Proof.
  unfold submit_trial, recorded. simpl.
  repeat case_decide; reflexivity.
Qed.

Lemma submit_trial_candidate self seq resp now :
  candidate_info (submit_trial self seq resp now).1 = candidate_info self.
Proof. unfold submit_trial. simpl. repeat case_decide; reflexivity. Qed.

(** The four outcomes of the progression rule, by the records of the
    current span once the new one is appended. *)
Lemma submit_trial_cases self seq resp now :
  let self' := (submit_trial self seq resp now).1 in
  let span_trials := at_span (current_span self) (results self') in
  (Z.of_nat (length span_trials) < TRIALS_PER_SPAN ∧
   current_span self' = current_span self ∧
   current_trial self' = current_trial self + 1 ∧
   finished self' = finished self)
  ∨ (TRIALS_PER_SPAN ≤ Z.of_nat (length span_trials) ∧
     sum_correct span_trials = 0 ∧
     current_span self' = current_span self ∧
     current_trial self' = 1 ∧
     finished self' = true)
  ∨ (TRIALS_PER_SPAN ≤ Z.of_nat (length span_trials) ∧
     sum_correct span_trials ≠ 0 ∧
     current_span self < MAX_SPAN ∧
     current_span self' = current_span self + 1 ∧
     current_trial self' = 1 ∧
     finished self' = finished self)
  ∨ (TRIALS_PER_SPAN ≤ Z.of_nat (length span_trials) ∧
     sum_correct span_trials ≠ 0 ∧
     MAX_SPAN ≤ current_span self ∧
     current_span self' = current_span self ∧
     current_trial self' = 1 ∧
     finished self' = true).
Proof.
  intros self' span_trials. subst self' span_trials.
  rewrite submit_trial_results. unfold submit_trial, recorded. simpl.
  repeat case_decide; simpl.
  - right; left. done.
  - right; right; left. done.
  - right; right; right. repeat split; try done. lia.
  - left. repeat split; try done. lia.
Qed.

(** C1. Discontinue rule: when the call brings the records of the current
    span to [TRIALS_PER_SPAN] and none of them is correct, the engine is
    finished right after the call, the span is unchanged and the trial
    counter is back at 1. *)
Theorem submit_trial_discontinue self seq resp now :
  finished self = false →
  let self' := (submit_trial self seq resp now).1 in
  let span_trials := at_span (current_span self) (results self') in
  Z.of_nat (length span_trials) = TRIALS_PER_SPAN →
  (∀ r, r ∈ span_trials → correct r = false) →
  finished self' = true ∧
  (submit_trial self seq resp now).2.(out_finished) = true ∧
  current_span self' = current_span self ∧
  current_trial self' = 1.
Proof.
  intros _ self' span_trials Hcount Hnone. subst self' span_trials.
  apply sum_correct_zero in Hnone.
  pose proof (submit_trial_cases self seq resp now) as Hcases.
  cbv zeta in Hcases. unfold submit_trial at 3. cbn [snd out_finished].
  destruct Hcases
    as [(? & _)|[(_ & _ & ? & ? & ?)|[(_ & ? & _)|(_ & ? & _)]]];
    try done; lia.
Qed.

(** C2. Advancement: below the ceiling, when the call brings the records of
    the current span to [TRIALS_PER_SPAN] and one of them is correct, the
    span goes up by one, the trial counter is back at 1 and the engine is
    still not finished. *)
Theorem submit_trial_advances self seq resp now S :
  finished self = false →
  current_span self = S →
  S < MAX_SPAN →
  let self' := (submit_trial self seq resp now).1 in
  let span_trials := at_span S (results self') in
  Z.of_nat (length span_trials) = TRIALS_PER_SPAN →
  (∃ r, r ∈ span_trials ∧ correct r = true) →
  current_span self' = S + 1 ∧
  current_trial self' = 1 ∧
  finished self' = false.
Proof.
  intros Hfin <- Hlt self' span_trials Hcount Hsome. subst self' span_trials.
  apply sum_correct_pos in Hsome.
  pose proof (submit_trial_cases self seq resp now) as Hcases.
  cbv zeta in Hcases.
  destruct Hcases
    as [(? & _)|[(_ & ? & _)|[(_ & _ & _ & ? & ? & ?)|(_ & _ & ? & _)]]];
    try done; try lia.
  repeat split; try done. congruence.
Qed.

(** C3. Ceiling: at [MAX_SPAN], when the call brings the records of the span
    to [TRIALS_PER_SPAN] and one of them is correct, the engine is finished
    and the span is still [MAX_SPAN]. *)
Theorem submit_trial_at_ceiling self seq resp now :
  finished self = false →
  current_span self = MAX_SPAN →
  let self' := (submit_trial self seq resp now).1 in
  let span_trials := at_span MAX_SPAN (results self') in
  Z.of_nat (length span_trials) = TRIALS_PER_SPAN →
  (∃ r, r ∈ span_trials ∧ correct r = true) →
  finished self' = true ∧
  current_span self' = MAX_SPAN ∧
  current_span self' ≤ MAX_SPAN.
Proof.
  intros _ Hmax self' span_trials Hcount Hsome. subst self' span_trials.
  apply sum_correct_pos in Hsome. rewrite <- Hmax in *.
  pose proof (submit_trial_cases self seq resp now) as Hcases.
  cbv zeta in Hcases.
  destruct Hcases
    as [(? & _)|[(_ & ? & _)|[(_ & _ & ? & _)|(_ & _ & _ & ? & _ & ?)]]];
    try done; try lia.
  repeat split; try done; lia.
Qed.

(** C5. Order sensitivity: the appended record holds the two lists as given
    and is marked correct exactly when the response equals the sequence as a
    list; a response of another length is incorrect, and so is [2,1,5]
    against [2,5,1]. *)
Theorem submit_trial_order_sensitive self seq resp now :
  ∃ r, results (submit_trial self seq resp now).1 = results self ++ [r] ∧
       sequence r = seq ∧ response r = resp ∧
       out_correct (submit_trial self seq resp now).2 = correct r ∧
       (correct r = true ↔ resp = seq) ∧
       (length resp ≠ length seq → correct r = false) ∧
       (seq = [2; 5; 1] → resp = [2; 1; 5] → correct r = false).
Proof.
  exists (recorded self seq resp now).
  split; [apply submit_trial_results|].
  repeat split; simpl.
  - by intros ->%list_eq_spec.
  - intros ->. by apply list_eq_spec.
  - intros Hlen. apply list_eq_length. congruence.
  - by intros -> ->.
Qed.

(** ** After the engine has finished *)

Lemma finished_stays self seq resp now :
  finished self = true → finished (submit_trial self seq resp now).1 = true.
Proof.
  intros Hfin.
  pose proof (submit_trial_cases self seq resp now) as Hcases. cbv zeta in Hcases.
  destruct Hcases
    as [(_ & _ & _ & ?)|[(_ & _ & _ & _ & ?)|[(_ & _ & _ & _ & _ & ?)|(_ & _ & _ & _ & _ & ?)]]];
    congruence.
Qed.

(** C6, as amended. [submit_trial] does not look at [finished]: on a
    finished engine the call is accepted like any other, appends its record
    behind the existing ones, and leaves the engine finished. *)
Theorem submit_trial_after_finish self seq resp now :
  finished self = true →
  results (submit_trial self seq resp now).1
    = results self ++ [recorded self seq resp now] ∧
  length (results (submit_trial self seq resp now).1) = S (length (results self)) ∧
  finished (submit_trial self seq resp now).1 = true.
Proof.
  intros Hfin. rewrite submit_trial_results. repeat split.
  - rewrite length_app. simpl. lia.
  - by apply finished_stays.
Qed.

(** ** Reachable engines *)

Lemma engine_inv_init info : engine_inv (init info).
Proof.
  split; simpl.
  - unfold MIN_SPAN, MAX_SPAN. lia.
  - intros r Hr. by apply not_elem_of_nil in Hr.
  - left. unfold TRIALS_PER_SPAN. simpl. lia.
Qed.

Lemma at_span_above s rs :
  (∀ r, r ∈ rs → span_length r < s) → at_span s rs = [].
Proof.
  intros Hlt. induction rs as [|r rs IH]; [done|].
  unfold at_span. rewrite filter_cons_False.
  - apply IH. intros r' Hr'. apply Hlt. by apply list_elem_of_further.
  - specialize (Hlt r (list_elem_of_here _ _)). lia.
Qed.

Lemma engine_inv_submit self seq resp now :
  engine_inv self → engine_inv (submit_trial self seq resp now).1.
Proof.
  intros [Hspan Hbelow Htrial].
  pose proof (submit_trial_cases self seq resp now) as Hcases. cbv zeta in Hcases.
  pose proof (submit_trial_results self seq resp now) as Hres.
  set (self' := (submit_trial self seq resp now).1) in *.
  assert (Hbelow' : ∀ r, r ∈ results self' → span_length r ≤ current_span self).
  { intros r. rewrite Hres, elem_of_app, list_elem_of_singleton.
    intros [Hr| ->]; [by apply Hbelow | simpl; lia]. }
  assert (Hlen : Z.of_nat (length (at_span (current_span self) (results self')))
                 = Z.of_nat (length (at_span (current_span self) (results self))) + 1).
  { rewrite Hres, at_span_app, length_app. unfold at_span at 2.
    rewrite filter_cons_True by done. simpl. lia. }
  destruct Hcases
    as [(Hlt & Hs & Ht & _)|[(Hge & _ & Hs & Ht & _)
       |[(Hge & _ & Hmax & Hs & Ht & _)|(Hge & _ & _ & Hs & Ht & _)]]].
  - split.
    + rewrite Hs. done.
    + rewrite Hs. done.
    + rewrite Hs, Ht. left. split; [done|].
      destruct Htrial as [[_ ->]|[? _]]; lia.
  - split.
    + rewrite Hs. done.
    + rewrite Hs. done.
    + rewrite Hs, Ht. right. done.
  - split.
    + rewrite Hs. lia.
    + rewrite Hs. intros r Hr. specialize (Hbelow' r Hr). lia.
    + rewrite Hs, Ht. left.
      rewrite at_span_above; [unfold TRIALS_PER_SPAN; simpl; lia|].
      intros r Hr. specialize (Hbelow' r Hr). lia.
  - split.
    + rewrite Hs. done.
    + rewrite Hs. done.
    + rewrite Hs, Ht. right. done.
Qed.

Lemma engine_inv_step self op : engine_inv self → engine_inv (step self op).
Proof. destruct op; simpl; try done. apply engine_inv_submit. Qed.

Lemma run_app self ops more : run self (ops ++ more) = run (run self ops) more.
Proof. apply foldl_app. Qed.

Lemma engine_inv_run self ops : engine_inv self → engine_inv (run self ops).
Proof.
  revert self. induction ops as [|op ops IH]; intros self Hinv; [done|].
  apply IH, engine_inv_step, Hinv.
Qed.

Lemma engine_inv_trial_range e :
  engine_inv e → 1 ≤ current_trial e ≤ TRIALS_PER_SPAN.
Proof.
  intros [_ _ [[Hlt ->]|[_ ->]]]; [lia | unfold TRIALS_PER_SPAN; lia].
Qed.

Lemma step_finished self op : finished self = true → finished (step self op) = true.
Proof. destruct op; simpl; try done. apply finished_stays. Qed.

Lemma run_finished self ops : finished self = true → finished (run self ops) = true.
Proof.
  revert self. induction ops as [|op ops IH]; intros self Hfin; [done|].
  apply IH, step_finished, Hfin.
Qed.

Lemma step_results_prefix self op : results self `prefix_of` results (step self op).
Proof.
  destruct op; unfold step; try reflexivity.
  rewrite submit_trial_results. by apply prefix_app_r.
Qed.

Lemma run_results_prefix self ops : results self `prefix_of` results (run self ops).
Proof.
  revert self. induction ops as [|op ops IH]; intros self; [done|].
  simpl. etrans; [apply step_results_prefix | apply IH].
Qed.

(** C7. Invariants of the engines reached from the initial one by any
    operations: while not finished the span lies between [MIN_SPAN] and
    [MAX_SPAN]; the trial counter lies between 1 and [TRIALS_PER_SPAN];
    whatever follows, a finished engine stays finished and the records
    present stay where they are, as a prefix of the later list. *)
Theorem reachable_state_invariants info ops :
  let s := run (init info) ops in
  (finished s = false → MIN_SPAN ≤ current_span s ≤ MAX_SPAN) ∧
  1 ≤ current_trial s ≤ TRIALS_PER_SPAN ∧
  (∀ more, finished s = true → finished (run s more) = true) ∧
  (∀ more, results s `prefix_of` results (run s more)).
Proof.
  intros s.
  assert (Hinv : engine_inv s) by apply engine_inv_run, engine_inv_init.
  split; [intros _; apply Hinv|].
  split; [by apply engine_inv_trial_range|].
  split; [intros more; apply run_finished | intros more; apply run_results_prefix].
Qed.

(** ** The span score *)

Lemma elem_of_spans_of rs s : s ∈ spans_of rs ↔ span_present rs s.
Proof.
  unfold spans_of, span_present. rewrite elem_of_list_to_set, list_elem_of_fmap.
  split; intros (r & ? & ?); exists r; done.
Qed.

Lemma span_present_count rs s : span_present rs s ↔ 0 < trial_count rs s.
Proof.
  unfold trial_count. split.
  - intros (r & Hr & Hs).
    assert (r ∈ filter (λ r, span_length r = s) rs) as Hin
      by by apply list_elem_of_filter.
    destruct (filter _ rs); [by apply not_elem_of_nil in Hin | cbn [length]; lia].
  - intros Hpos. destruct (filter _ rs) as [|r l] eqn:Hf; [cbn [length] in Hpos; lia|].
    assert (r ∈ filter (λ r, span_length r = s) rs) as Hin
      by (rewrite Hf; apply list_elem_of_here).
    apply list_elem_of_filter in Hin as [? ?]. by exists r.
Qed.

Lemma sum_correct_at_span rs s : sum_correct (at_span s rs) = correct_count rs s.
Proof.
  rewrite sum_correct_count. unfold at_span, correct_count.
  by rewrite list_filter_filter.
Qed.

Lemma length_at_span rs s : Z.of_nat (length (at_span s rs)) = trial_count rs s.
Proof. reflexivity. Qed.

(** The division of the loop body does not fail on a span that is present,
    and yields the accuracy of that span. *)
Lemma accuracy_of_present rs s :
  span_present rs s →
  true_div (sum_correct (at_span s rs)) (Z.of_nat (length (at_span s rs)))
  = Ok (span_accuracy rs s).
Proof.
  intros Hp%span_present_count. unfold true_div.
  rewrite sum_correct_at_span, length_at_span.
  case_decide; [lia | done].
Qed.

(** It does fail on a span that is absent. *)
Lemma accuracy_of_absent rs s :
  ¬ span_present rs s →
  true_div (sum_correct (at_span s rs)) (Z.of_nat (length (at_span s rs)))
  = Raise ZeroDivisionError.
Proof.
  intros Hp. rewrite span_present_count in Hp. unfold true_div.
  rewrite length_at_span. case_decide; [done|].
  unfold trial_count in *. lia.
Qed.

(** The loop over spans that are all present ends normally, and adds to the
    dict exactly the qualifying spans it visits. *)
Lemma score_spans_ok rs spans m :
  (∀ s, s ∈ spans → span_present rs s) →
  ∃ m', score_spans rs spans m = Ok m' ∧
        ∀ k, is_Some (m' !! k) ↔ is_Some (m !! k) ∨ (k ∈ spans ∧ qualifies rs k).
Proof.
  revert m. induction spans as [|s spans IH]; intros m Hall.
  - exists m. split; [done|]. intros k. rewrite elem_of_nil. tauto.
  - assert (Hs : span_present rs s) by apply Hall, list_elem_of_here.
    cbn [score_spans]. rewrite (accuracy_of_present rs s Hs).
    unfold mbind, Result_bind.
    edestruct IH as (m' & -> & Hm'); [|exists m'; split; [done|]].
    { intros s' Hs'. apply Hall. by apply list_elem_of_further. }
    intros k. rewrite Hm', elem_of_cons.
    destruct (Qle_bool (1 # 2) (span_accuracy rs s)) eqn:Hq.
    + apply Qle_bool_iff in Hq. rewrite lookup_insert_is_Some.
      unfold qualifies. split.
      * intros [[-> | [_ Hk]] | [Hk Hqk]]; eauto.
      * intros [Hk | [[-> | Hk] Hqk]]; eauto.
        destruct (decide (s = k)); eauto.
    + assert (¬ (1 # 2 <= span_accuracy rs s)%Q) as Hn.
      { intros Hle%Qle_bool_iff. congruence. }
      unfold qualifies. split.
      * intros [Hk | [Hk Hqk]]; eauto.
      * intros [Hk | [[-> | Hk] Hqk]]; eauto. tauto.
Qed.

Lemma elem_of_dict_keys (m : gmap Z Q) k : k ∈ dict_keys m ↔ is_Some (m !! k).
Proof.
  unfold dict_keys. rewrite list_elem_of_fmap. split.
  - intros ([k' q] & -> & Hin). apply elem_of_map_to_list in Hin. by exists q.
  - intros [q Hq]. exists (k, q). split; [done | by apply elem_of_map_to_list].
Qed.

(** [max(d.keys()) if d else 0]: 0 on the empty dict, the largest key
    otherwise. *)
Lemma max_key_or_zero_spec (m : gmap Z Q) :
  ((∀ k, m !! k = None) ∧ max_key_or_zero m = 0)
  ∨ (is_Some (m !! max_key_or_zero m) ∧
     ∀ k, is_Some (m !! k) → k ≤ max_key_or_zero m).
Proof.
  unfold max_key_or_zero. destruct (dict_keys m) as [|k ks] eqn:Hkeys.
  - left. split; [|done]. intros k. apply eq_None_not_Some.
    rewrite <- elem_of_dict_keys, Hkeys. apply not_elem_of_nil.
  - right. split.
    + rewrite <- elem_of_dict_keys, Hkeys. apply py_max_elem.
    + intros k'. rewrite <- elem_of_dict_keys, Hkeys. apply py_max_upper.
Qed.

(** The score computed from a list of records: it is returned, it is the
    largest qualifying span when there is one, and 0 when there is none. *)
Lemma calculate_corsi_span_max self :
  ∃ m, calculate_corsi_span self = Ok m ∧
       ((qualifies (results self) m ∧ ∀ s, qualifies (results self) s → s ≤ m)
        ∨ (m = 0 ∧ ∀ s, ¬ qualifies (results self) s)).
Proof.
  unfold calculate_corsi_span.
  destruct (score_spans_ok (results self) (elements (spans_of (results self))) ∅)
    as (scores & -> & Hscores).
  { intros s. rewrite elem_of_elements. apply elem_of_spans_of. }
  exists (max_key_or_zero scores). split; [done|].
  assert (Hq : ∀ k, is_Some (scores !! k) ↔ qualifies (results self) k).
  { intros k. rewrite Hscores, lookup_empty, elem_of_elements, elem_of_spans_of.
    unfold qualifies. split.
    - intros [[? [=]] | [_ ?]]. done.
    - intros [? ?]. right. done. }
  destruct (max_key_or_zero_spec scores) as [[Hnone ->] | [Hin Hmax]].
  - right. split; [done|]. intros s Hs%Hq. rewrite Hnone in Hs. by destruct Hs.
  - left. split; [by apply Hq|]. intros s Hs%Hq. by apply Hmax.
Qed.

Lemma calculate_corsi_span_empty self :
  results self = [] → calculate_corsi_span self = Ok 0.
Proof.
  intros Hnil. destruct (calculate_corsi_span_max self) as (m & -> & Hm).
  f_equal. destruct Hm as [[[(r & Hr & _) _] _] | [-> _]]; [|done].
  rewrite Hnil in Hr. by apply not_elem_of_nil in Hr.
Qed.

(** C4. Span score: [calculate_corsi_span] returns a value; when some span
    qualifies (accuracy at least one half over the records of that span) the
    value is a qualifying span and no qualifying span is larger; when no
    span qualifies, and so on an empty list, it is 0; and when the records
    go up to span 5, with accuracy 1 at span 4 and accuracy 0 at span 5, it
    is 4. *)
Theorem calculate_corsi_span_spec self :
  ∃ m, calculate_corsi_span self = Ok m ∧
       ((∃ s, qualifies (results self) s) →
        qualifies (results self) m ∧ ∀ s, qualifies (results self) s → s ≤ m) ∧
       ((∀ s, ¬ qualifies (results self) s) → m = 0) ∧
       (results self = [] → m = 0) ∧
       (span_present (results self) 4 →
        (span_accuracy (results self) 4 == 1)%Q →
        span_present (results self) 5 →
        (span_accuracy (results self) 5 == 0)%Q →
        Forall (λ r, span_length r ≤ 5) (results self) →
        m = 4).
Proof.
  destruct (calculate_corsi_span_max self) as (m & Hcalc & Hm).
  exists m. split_and!; [done|..].
  - intros [s Hs]. destruct Hm as [[? ?] | [_ Hnone]]; [done|].
    by apply Hnone in Hs.
  - intros Hnone. destruct Hm as [[Hq _] | [-> _]]; [|done]. by apply Hnone in Hq.
  - intros Hnil. apply calculate_corsi_span_empty in Hnil. congruence.
  - intros Hp4 Hacc4 _ Hacc5 Hle.
    assert (Hq4 : qualifies (results self) 4).
    { split; [done|]. rewrite Hacc4. done. }
    destruct Hm as [[Hqm Hmax] | [_ Hnone]]; [|by apply Hnone in Hq4].
    specialize (Hmax 4 Hq4).
    destruct Hqm as [(r & Hr & Hrm) Haccm].
    rewrite Forall_forall in Hle. specialize (Hle r Hr).
    destruct (decide (m = 5)) as [->|]; [|lia].
    rewrite Hacc5 in Haccm. done.
Qed.

(** ** Finalization *)

Lemma true_div_nonzero a b :
  b ≠ 0 → true_div a b = Ok (inject_Z a / inject_Z b)%Q.
Proof. intros Hb. unfold true_div. by case_decide. Qed.

(** On a non-empty list [save_session] returns the summary and makes its
    two database calls. *)
Lemma save_session_nonempty self now :
  results self ≠ [] →
  ∃ span,
    calculate_corsi_span self = Ok span ∧
    let sd :=
      {| session_number := session (candidate_info self);
         test_date := now;
         corsi_span := span;
         total_trials := Z.of_nat (length (results self));
         correct_trials := sum_correct (results self);
         accuracy := (inject_Z (sum_correct (results self))
                      / inject_Z (Z.of_nat (length (results self))) * 100)%Q;
         data_files := [] |} in
    save_session self now
    = Ok (Some sd,
          [ save_candidate (candidate_info self);
            save_test_session (candidate_id (candidate_info self)) sd ]).
Proof.
  intros Hne. destruct (calculate_corsi_span_max self) as (span & Hspan & _).
  exists span. split; [done|]. unfold save_session.
  destruct (results self) as [|r rs] eqn:Hrs; [done|].
  rewrite true_div_nonzero by (cbn [length]; lia).
  unfold mbind, Result_bind. rewrite Hspan. reflexivity.
Qed.


(** After the finish, through the handler of main.py: a trial sent to a finished
    session is answered 200 with a summary, the stored engine holds one more
    record, and the session is written to the database once more. *)
Lemma post_submit_trial_after_finish srv sid engine seq resp now now_saved :
  SESSIONS srv !! sid = Some engine →
  finished engine = true →
  ∃ outcome summary calls,
    post_submit_trial srv sid seq resp now now_saved
    = ({| SESSIONS := <[sid := (submit_trial engine seq resp now).1]> (SESSIONS srv);
          db_log := db_log srv ++ calls |},
       Http200 (outcome, Some (Some summary))) ∧
    length calls = 2%nat.
Proof.
  intros Hlook Hfin. unfold post_submit_trial. rewrite Hlook.
  pose proof (finished_stays engine seq resp now Hfin) as Hfin'.
  destruct (submit_trial engine seq resp now) as [engine' outcome] eqn:Hsub.
  assert (Hout : out_finished outcome = true).
  { rewrite <- Hfin'. unfold submit_trial in Hsub. by injection Hsub as <- <-. }
  rewrite Hout. cbn [fst].
  destruct (save_session_nonempty engine' now_saved) as (span & _ & Hsave).
  { replace engine' with (submit_trial engine seq resp now).1 by by rewrite Hsub.
    rewrite submit_trial_results. by destruct (results engine). }
  cbv zeta in Hsave. rewrite Hsave. eauto.
Qed.

(** ** No division by zero *)

Lemma save_session_ok self now : ∃ out, save_session self now = Ok out.
Proof.
  destruct (results self) as [|r rs] eqn:Hrs.
  - exists (None, []). unfold save_session. by rewrite Hrs.
  - destruct (save_session_nonempty self now) as (span & _ & Hsave).
    { by rewrite Hrs. }
    eexists. exact Hsave.
Qed.

Lemma at_span_as_trial_record s rs :
  at_span s (as_trial_record <$> rs)
  = as_trial_record <$> filter (λ r, CorsiTask.span_length r = s) rs.
Proof.
  unfold at_span. induction rs as [|r rs IH]; [done|].
  rewrite fmap_cons, !filter_cons. simpl.
  destruct (decide (CorsiTask.span_length r = s)); by rewrite IH.
Qed.

Lemma desktop_score_spans rs spans m :
  CorsiTask.score_spans rs spans m = score_spans (as_trial_record <$> rs) spans m.
Proof.
  revert m. induction spans as [|s spans IH]; intros m; [done|].
  cbn [CorsiTask.score_spans score_spans].
  rewrite at_span_as_trial_record, length_fmap. unfold sum_correct.
  rewrite <- list_fmap_compose.
  destruct (true_div _ _) as [q|e]; [|done]. apply IH.
Qed.

(** The desktop task scores its records as the engine scores the same
    spans and flags. *)
Lemma desktop_score_same rs self :
  results self = as_trial_record <$> rs →
  CorsiTask.calculate_corsi_span rs = calculate_corsi_span self.
Proof.
  intros Hrs. unfold CorsiTask.calculate_corsi_span, calculate_corsi_span, spans_of.
  rewrite Hrs, desktop_score_spans, <- list_fmap_compose. done.
Qed.

(** C10. No division by zero: every span the score loop divides over has at
    least one record, so [calculate_corsi_span] returns, in the engine and
    in the desktop task alike; [save_session] returns as well, its division
    being behind the test for an empty list; and no operation of the engine
    raises [ZeroDivisionError]. *)
Theorem engine_no_division_by_zero self :
  (∀ span, span ∈ elements (spans_of (results self)) →
           Z.of_nat (length (at_span span (results self))) ≠ 0 ∧
           ∃ q, true_div (sum_correct (at_span span (results self)))
                         (Z.of_nat (length (at_span span (results self)))) = Ok q) ∧
  (∃ m, calculate_corsi_span self = Ok m) ∧
  (∀ rs, ∃ m, CorsiTask.calculate_corsi_span rs = Ok m) ∧
  (∀ now, ∃ out, save_session self now = Ok out) ∧
  (∀ op, raised self op ≠ Some ZeroDivisionError).
Proof.
  assert (Hcalc : ∃ m, calculate_corsi_span self = Ok m).
  { destruct (calculate_corsi_span_max self) as (m & Hm & _). by exists m. }
  split_and!; try done.
  - intros span Hin%elem_of_elements%elem_of_spans_of. split.
    + apply span_present_count in Hin. rewrite length_at_span. lia.
    + eexists. by apply accuracy_of_present.
  - intros rs.
    destruct (calculate_corsi_span_max
                (set_results (as_trial_record <$> rs) self)) as (m & Hm & _).
    exists m. rewrite <- Hm. by apply desktop_score_same.
  - intros now. apply save_session_ok.
  - intros [| sample | seq resp now | | now]; cbn [raised]; try done.
    + unfold new_sequence. by case_decide.
    + by destruct Hcalc as [m ->].
    + by destruct (save_session_ok self now) as [out ->].
Qed.

(** ** The start-session request *)

Lemma CandidateInfo_validate_session b c :
  CandidateInfo_validate b = Some c →
  match b_session b with
  | Absent => session c = 1
  | Given z => session c = z
  | IllTyped => False
  end.
Proof.
  unfold CandidateInfo_validate. intros Hv.
  destruct (required (b_examiner_name b)); [|done].
  destruct (required (b_candidate_name b)); [|done].
  destruct (required (b_candidate_id b)); [|done].
  destruct (nullable (b_age b)); [|done].
  destruct (nullable (b_gender b)); [|done].
  destruct (b_session b); simpl in Hv; [| |done];
    (destruct (nullable (b_additional_notes b)); [|done]);
    simpl in Hv; by injection Hv as <-.
Qed.

(** A session number that is not an integer is turned down before the
    handler runs: the server is as it was. *)
Lemma post_start_session_illtyped srv b uuid :
  b_session b = IllTyped → post_start_session srv b uuid = (srv, Http422).
Proof.
  intros Hs. unfold post_start_session.
  destruct (CandidateInfo_validate b) as [c|] eqn:Hv; [|done].
  apply CandidateInfo_validate_session in Hv. by rewrite Hs in Hv.
Qed.

(** Once the body is well typed, the handler stores a fresh engine whatever
    the session number is. *)
Lemma post_start_session_stores srv b c uuid :
  CandidateInfo_validate b = Some c →
  post_start_session srv b uuid
  = ({| SESSIONS := <[uuid := init c]> (SESSIONS srv); db_log := db_log srv |},
     Http200 (uuid, {| st_span_length := MIN_SPAN; st_trial_number := 1;
                       st_finished := false |})).
Proof. intros Hv. unfold post_start_session. by rewrite Hv. Qed.

(** The check of the desktop task turns a session number below 1 down. *)
Lemma validate_candidate_info_session py_int info :
  validate_candidate_info py_int info = Ok true →
  ∃ raw n, info !! "session" = Some raw ∧ py_int raw = Some n ∧ 1 ≤ n.
Proof.
  unfold validate_candidate_info, getitem. intros Hv.
  destruct (info !! "candidate_name") as [name|]; [|done]. simpl in Hv.
  destruct (str_falsy name); [done|].
  destruct (info !! "candidate_id") as [cid|]; [|done]. simpl in Hv.
  destruct (str_falsy cid); [done|].
  destruct (info !! "session") as [raw|]; [|done]. simpl in Hv.
  destruct (py_int raw) as [n|] eqn:Hn; [|done].
  case_decide; [done|]. exists raw, n. split_and!; [done..|lia].
Qed.

(** ** The concrete sessions *)

Example two_failures_state :
  (current_span two_failures, current_trial two_failures, finished two_failures)
  = (2, 1, true) ∧ calculate_corsi_span two_failures = Ok 0.
Proof. split; reflexivity. Qed.

Example scenario_one_state :
  (current_span scenario_one, current_trial scenario_one, finished scenario_one)
  = (4, 1, true) ∧ calculate_corsi_span scenario_one = Ok 3.
Proof. split; vm_compute; reflexivity. Qed.

Example near_ceiling_state :
  (current_span near_ceiling, current_trial near_ceiling, finished near_ceiling)
  = (8, 2, false).
Proof. vm_compute. reflexivity. Qed.

Example stopped_at_five_score : calculate_corsi_span stopped_at_five = Ok 4.
Proof. vm_compute. reflexivity. Qed.

(** The division the score loop makes, asked about a span without records,
    does raise: the loop is safe by where its spans come from. *)
Example absent_span_divides_by_zero :
  true_div (sum_correct (at_span 7 (results two_failures)))
           (Z.of_nat (length (at_span 7 (results two_failures))))
  = Raise ZeroDivisionError.
Proof. reflexivity. Qed.

(** ** The properties on the concrete sessions *)

Lemma submit_trial_discontinue_witness :
  finished (submit_trial one_failure [2; 5; 1] [2; 1; 5] "t2").1 = true ∧
  out_finished (submit_trial one_failure [2; 5; 1] [2; 1; 5] "t2").2 = true ∧
  current_span (submit_trial one_failure [2; 5; 1] [2; 1; 5] "t2").1
    = current_span one_failure ∧
  current_trial (submit_trial one_failure [2; 5; 1] [2; 1; 5] "t2").1 = 1.
Proof.
  apply (submit_trial_discontinue one_failure [2; 5; 1] [2; 1; 5] "t2").
  - reflexivity.
  - reflexivity.
  - apply Forall_forall. vm_compute. repeat constructor.
Defined.

Lemma submit_trial_advances_witness :
  current_span (submit_trial one_success [2; 5; 1] [2; 1; 5] "t2").1 = 2 + 1 ∧
  current_trial (submit_trial one_success [2; 5; 1] [2; 1; 5] "t2").1 = 1 ∧
  finished (submit_trial one_success [2; 5; 1] [2; 1; 5] "t2").1 = false.
Proof.
  apply (submit_trial_advances one_success [2; 5; 1] [2; 1; 5] "t2" 2).
  - reflexivity.
  - reflexivity.
  - reflexivity.
  - reflexivity.
  - exists (recorded (init example_candidate) [2; 5; 1] [2; 5; 1] "t1").
    split; [vm_compute; constructor | reflexivity].
Defined.

Lemma submit_trial_at_ceiling_witness :
  finished (submit_trial near_ceiling [2; 5; 1] [2; 1; 5] "t14").1 = true ∧
  current_span (submit_trial near_ceiling [2; 5; 1] [2; 1; 5] "t14").1 = MAX_SPAN ∧
  current_span (submit_trial near_ceiling [2; 5; 1] [2; 1; 5] "t14").1 ≤ MAX_SPAN.
Proof.
  apply (submit_trial_at_ceiling near_ceiling [2; 5; 1] [2; 1; 5] "t14").
  - vm_compute. reflexivity.
  - vm_compute. reflexivity.
  - vm_compute. reflexivity.
  - exists (mkTrial 8 1 [2; 5; 1] [2; 5; 1] true "t13").
    split; [vm_compute; constructor | reflexivity].
Defined.

Lemma calculate_corsi_span_spec_witness : calculate_corsi_span stopped_at_five = Ok 4.
Proof.
  destruct (calculate_corsi_span_spec stopped_at_five) as (m & -> & _ & _ & _ & Hfour).
  f_equal. apply Hfour.
  - exists (mkTrial 4 1 [2; 5; 1] [2; 5; 1] true "t").
    split; [vm_compute; repeat constructor | reflexivity].
  - vm_compute. reflexivity.
  - exists (mkTrial 5 1 [2; 5; 1] [2; 1; 5] false "t7").
    split; [vm_compute; repeat constructor | reflexivity].
  - vm_compute. reflexivity.
  - vm_compute. repeat constructor; discriminate.
Defined.

Lemma submit_trial_order_sensitive_witness :
  ∃ r, results (submit_trial (init example_candidate) [2; 5; 1] [2; 1; 5] "t1").1
       = [r] ∧ correct r = false.
Proof.
  destruct (submit_trial_order_sensitive (init example_candidate) [2; 5; 1] [2; 1; 5] "t1")
    as (r & Hres & _ & _ & _ & _ & _ & Hswap).
  exists r. split; [exact Hres | apply Hswap; reflexivity].
Defined.

(** C6, the claim as stated fails: [two_failures] is finished, and one more
    call appends a third record to its list. *)
Lemma no_rejection_after_finish :
  ¬ (∀ self seq resp now,
       finished self = true →
       results (submit_trial self seq resp now).1 = results self ∧
       current_span (submit_trial self seq resp now).1 = current_span self ∧
       current_trial (submit_trial self seq resp now).1 = current_trial self).
Proof.
  intros Hclaim.
  destruct (Hclaim two_failures [2; 5; 1] [2; 5; 1] "t3") as (Hres & _ & _).
  { reflexivity. }
  apply (f_equal length) in Hres. vm_compute in Hres. discriminate.
Qed.

Lemma submit_trial_after_finish_witness :
  length (results (submit_trial two_failures [2; 5; 1] [2; 5; 1] "t3").1) = 3%nat ∧
  finished (submit_trial two_failures [2; 5; 1] [2; 5; 1] "t3").1 = true.
Proof.
  destruct (submit_trial_after_finish two_failures [2; 5; 1] [2; 5; 1] "t3")
    as (_ & Hlen & Hfin).
  - reflexivity.
  - split; [exact Hlen | exact Hfin].
Defined.

Lemma reachable_state_invariants_witness :
  MIN_SPAN ≤ current_span one_success ≤ MAX_SPAN ∧
  finished (run two_failures [right_answer "t3"]) = true.
Proof.
  split.
  - apply (reachable_state_invariants example_candidate [right_answer "t1"]). reflexivity.
  - apply (reachable_state_invariants example_candidate [wrong_answer "t1"; wrong_answer "t2"]).
    reflexivity.
Defined.


Lemma engine_no_division_by_zero_witness :
  ∃ q, true_div (sum_correct (at_span 2 (results two_failures)))
                (Z.of_nat (length (at_span 2 (results two_failures)))) = Ok q.
Proof.
  destruct (engine_no_division_by_zero two_failures) as (Hspans & _).
  destruct (Hspans 2) as (_ & Hq).
  - vm_compute. constructor.
  - exact Hq.
Defined.

(** C9, at the failing input: a start-session request with session number
    0 is not turned down.  The handler builds an engine for it and stores it
    in [SESSIONS]; the answer is the new session id and the initial state. *)
Theorem start_session_accepts_session_zero :
  let body :=
    {| b_examiner_name := Given "Examiner"; b_candidate_name := Given "Candidate";
       b_candidate_id := Given "C001"; b_age := Absent; b_gender := Absent;
       b_session := Given 0; b_additional_notes := Absent |} in
  let srv := {| SESSIONS := ∅; db_log := [] |} in
  let '(srv', answer) := post_start_session srv body "id-1" in
  answer = Http200 ("id-1", {| st_span_length := 2; st_trial_number := 1;
                               st_finished := false |}) ∧
  ∃ engine, SESSIONS srv' !! "id-1" = Some engine ∧
            session (candidate_info engine) = 0 ∧
            results engine = [] ∧ finished engine = false.
Proof.
  cbv zeta. unfold post_start_session, start_session_handler. cbn.
  split; [reflexivity|]. eexists. split; [apply lookup_insert_eq|]. done.
Qed.

(** Any integer passes, positive or not. *)
Lemma start_session_accepts_any_integer srv b uuid z :
  b_session b = Given z →
  is_Some (CandidateInfo_validate (mkBody (b_examiner_name b) (b_candidate_name b)
             (b_candidate_id b) (b_age b) (b_gender b) (Given 1)
             (b_additional_notes b))) →
  ∃ c, session c = z ∧
       (post_start_session srv b uuid).1.(SESSIONS) !! uuid = Some (init c).
Proof.
  intros Hs [c1 Hv1]. destruct b as [f1 f2 f3 f4 f5 f6 f7]. simpl in *. subst f6.
  unfold post_start_session, CandidateInfo_validate in *. simpl in *.
  destruct (required f1); [|done]. destruct (required f2); [|done].
  destruct (required f3); [|done]. destruct (nullable f4); [|done].
  destruct (nullable f5); [|done]. destruct (nullable f7); [|done].
  simpl. eexists. split; [|apply lookup_insert_eq]. done.
Qed.

(** A missing session number stands for 1. *)
Lemma start_session_default_session b c :
  b_session b = Absent → CandidateInfo_validate b = Some c → session c = 1.
Proof.
  intros Hs Hv. apply CandidateInfo_validate_session in Hv. by rewrite Hs in Hv.
Qed.

(** * Further properties *)

(** ** The progression along a session *)

Lemma at_span_snoc s rs r :
  at_span s (rs ++ [r])
  = if decide (span_length r = s) then at_span s rs ++ [r] else at_span s rs.
Proof.
  rewrite at_span_app. unfold at_span at 2. rewrite filter_cons, filter_nil.
  case_decide; [done | by rewrite app_nil_r].
Qed.

(** Below [TRIALS_PER_SPAN] records at the current span, a call moves to the
    next trial of the same span. *)
Lemma submit_trial_next_trial self seq resp now :
  Z.of_nat (length (at_span (current_span self) (results self))) + 1 < TRIALS_PER_SPAN →
  current_span (submit_trial self seq resp now).1 = current_span self ∧
  current_trial (submit_trial self seq resp now).1 = current_trial self + 1 ∧
  finished (submit_trial self seq resp now).1 = finished self ∧
  out_next_state (submit_trial self seq resp now).2
  = {| st_span_length := current_span self;
       st_trial_number := current_trial self + 1;
       st_finished := finished self |}.
Proof.
  intros Hlt.
  pose proof (submit_trial_cases self seq resp now) as Hcases. cbv zeta in Hcases.
  rewrite submit_trial_results, at_span_snoc in Hcases.
  rewrite decide_True in Hcases by done. rewrite length_app in Hcases.
  cbn [length] in Hcases.
  destruct Hcases as [(_ & Hs & Ht & Hf)|[(? & _)|[(? & _)|(? & _)]]]; try lia.
  split_and!; try done.
  unfold submit_trial at 1. cbn [snd out_next_state]. unfold _state.
  change (?f (let self1 := _ in _)) with (f (submit_trial self seq resp now).1) in *.
  f_equal; done.
Qed.

Lemma submit_trial_span_step self seq resp now :
  current_span self ≤ current_span (submit_trial self seq resp now).1
  ≤ Z.max (current_span self + 1) (current_span self) ∧
  current_span (submit_trial self seq resp now).1
  ≤ Z.max (current_span self) MAX_SPAN.
Proof.
  pose proof (submit_trial_cases self seq resp now) as Hcases. cbv zeta in Hcases.
  destruct Hcases
    as [(_ & -> & _)|[(_ & _ & -> & _)|[(_ & _ & ? & -> & _)|(_ & _ & _ & -> & _)]]];
    lia.
Qed.

(** The span never goes down, whatever the operations, and never passes
    [MAX_SPAN] unless it started above it. *)
Theorem run_span_monotone self ops :
  current_span self ≤ current_span (run self ops) ≤ Z.max (current_span self) MAX_SPAN.
Proof.
  revert self. induction ops as [|op ops IH]; intros self; [simpl; lia|].
  change (run self (op :: ops)) with (run (step self op) ops).
  specialize (IH (step self op)).
  assert (current_span self ≤ current_span (step self op)
          ≤ Z.max (current_span self) MAX_SPAN) as Hstep.
  { destruct op; cbn [step]; try lia.
    pose proof (submit_trial_span_step self seq resp now). lia. }
  lia.
Qed.

(** Every call of [submit_trial] adds one record, the other operations
    none. *)
Lemma run_results_length self ops :
  length (results (run self ops)) = (length (results self) + submits ops)%nat.
Proof.
  revert self. induction ops as [|op ops IH]; intros self.
  - simpl. unfold submits. simpl. lia.
  - change (run self (op :: ops)) with (run (step self op) ops). rewrite IH.
    unfold submits. rewrite filter_cons.
    destruct op; cbn [step is_submit];
      try (rewrite decide_False by done; lia).
    rewrite decide_True by done. rewrite submit_trial_results, length_app.
    cbn [length]. lia.
Qed.

(** ** Open sessions *)

Lemma session_inv_init info : session_inv (init info).
Proof.
  split; cbn.
  - done.
  - unfold MIN_SPAN, MAX_SPAN. lia.
  - intros r Hr. by apply not_elem_of_nil in Hr.
  - intros s. unfold MIN_SPAN. lia.
  - unfold TRIALS_PER_SPAN. lia.
  - unfold TRIALS_PER_SPAN, MIN_SPAN. lia.
Qed.

Lemma session_inv_submit self seq resp now :
  session_inv self →
  finished (submit_trial self seq resp now).1 = false →
  session_inv (submit_trial self seq resp now).1.
Proof.
  intros [Hfin Hspan Hrec Hpassed [Hcur Htrial] Hlen] Hfin'.
  pose proof (submit_trial_cases self seq resp now) as Hcases. cbv zeta in Hcases.
  pose proof (submit_trial_results self seq resp now) as Hres.
  set (self' := (submit_trial self seq resp now).1) in *.
  set (r0 := recorded self seq resp now) in *.
  assert (Hat : ∀ s, at_span s (results self')
                     = if decide (current_span self = s)
                       then at_span s (results self) ++ [r0]
                       else at_span s (results self)).
  { intros s. rewrite Hres. apply at_span_snoc. }
  rewrite (Hat (current_span self)), decide_True, length_app in Hcases by done.
  cbn [length] in Hcases.
  assert (Hrec' : ∀ r, r ∈ results self' →
            MIN_SPAN ≤ span_length r ≤ current_span self ∧
            1 ≤ trial_number r ≤ TRIALS_PER_SPAN).
  { intros r. rewrite Hres, elem_of_app, list_elem_of_singleton.
    intros [Hr| ->]; [by apply Hrec | simpl; lia]. }
  assert (Hlen' : Z.of_nat (length (results self'))
                  = Z.of_nat (length (results self)) + 1).
  { rewrite Hres, length_app. cbn [length]. lia. }
  destruct Hcases
    as [(Hlt & Hs & Ht & _)|[(_ & _ & _ & _ & ?)
       |[(Hge & Hsum & Hmax & Hs & Ht & _)|(_ & _ & _ & _ & _ & ?)]]];
    try congruence.
  - split; rewrite ?Hs, ?Ht; try done.
    + intros s Hs'. rewrite Hat, decide_False by lia. by apply Hpassed.
    + rewrite Hat, decide_True, length_app by done. cbn [length]. lia.
    + lia.
  - split; rewrite ?Hs, ?Ht; try done.
    + lia.
    + intros r Hr. specialize (Hrec' r Hr). lia.
    + intros s Hs'. destruct (decide (s = current_span self)) as [->|Hne].
      * rewrite Hat, decide_True, length_app by done. cbn [length].
        split; [lia | done].
      * rewrite Hat, decide_False by lia. apply Hpassed. lia.
    + rewrite at_span_above; [unfold TRIALS_PER_SPAN; cbn [length]; lia|].
      intros r Hr. specialize (Hrec' r Hr). lia.
    + lia.
Qed.

Lemma session_inv_step self op :
  session_inv self → finished (step self op) = false → session_inv (step self op).
Proof. destruct op; cbn [step]; try done. apply session_inv_submit. Qed.

Lemma run_snoc self ops op : run self (ops ++ [op]) = step (run self ops) op.
Proof. unfold run. by rewrite foldl_app. Qed.

Lemma session_inv_run info ops :
  finished (run (init info) ops) = false → session_inv (run (init info) ops).
Proof.
  induction ops as [|op ops IH] using rev_ind; intros Hfin.
  - apply session_inv_init.
  - rewrite run_snoc in *. apply session_inv_step; [|done]. apply IH.
    destruct (finished (run (init info) ops)) eqn:Hf; [|done].
    by rewrite step_finished in Hfin.
Qed.

(** An unfinished session is accounted for by its span and trial counter:
    the spans below the current one have [TRIALS_PER_SPAN] records each,
    one of them correct, the current span has [current_trial - 1], and no
    record lies elsewhere. *)
Theorem open_session_accounting info ops :
  finished (run (init info) ops) = false →
  let e := run (init info) ops in
  Z.of_nat (length (results e))
  = TRIALS_PER_SPAN * (current_span e - MIN_SPAN) + (current_trial e - 1) ∧
  (∀ s, MIN_SPAN ≤ s < current_span e →
        Z.of_nat (length (at_span s (results e))) = TRIALS_PER_SPAN ∧
        ∃ r, r ∈ at_span s (results e) ∧ correct r = true) ∧
  Z.of_nat (length (at_span (current_span e) (results e))) = current_trial e - 1 ∧
  (∀ r, r ∈ results e →
        MIN_SPAN ≤ span_length r ≤ current_span e ∧
        1 ≤ trial_number r ≤ TRIALS_PER_SPAN).
Proof.
  intros Hfin e. destruct (session_inv_run info ops Hfin)
    as [_ _ Hrec Hpassed [Hcur _] Hlen].
  split_and!; try done.
  intros s Hs. destruct (Hpassed s Hs) as [Hn Hsum].
  split; [done|]. by apply sum_correct_pos.
Qed.

Lemma finished_needs_trials self seq resp now :
  (finished self = true → TRIALS_PER_SPAN ≤ Z.of_nat (length (results self))) →
  finished (submit_trial self seq resp now).1 = true →
  TRIALS_PER_SPAN ≤ Z.of_nat (length (results (submit_trial self seq resp now).1)).
Proof.
  intros IH Hfin.
  pose proof (submit_trial_cases self seq resp now) as Hcases. cbv zeta in Hcases.
  pose proof (length_filter (λ r, span_length r = current_span self)
                (results (submit_trial self seq resp now).1)) as Hle.
  fold (at_span (current_span self) (results (submit_trial self seq resp now).1)) in Hle.
  destruct Hcases
    as [(_ & _ & _ & Hf)|[(? & _)|[(? & _)|(? & _)]]]; try lia.
  rewrite Hf in Hfin. specialize (IH Hfin).
  rewrite submit_trial_results, length_app. lia.
Qed.

(** A session takes at least [TRIALS_PER_SPAN] trials and at most
    [TRIALS_PER_SPAN] per span from [MIN_SPAN] to [MAX_SPAN]: with fewer
    calls of [submit_trial] the engine is not finished, with that many it
    is. *)
Theorem session_length_bounds info ops :
  (finished (run (init info) ops) = true →
   TRIALS_PER_SPAN ≤ Z.of_nat (submits ops)) ∧
  (TRIALS_PER_SPAN * (MAX_SPAN - MIN_SPAN + 1) ≤ Z.of_nat (submits ops) →
   finished (run (init info) ops) = true).
Proof.
  pose proof (run_results_length (init info) ops) as Hlen.
  change (length (results (init info)) + submits ops)%nat with (submits ops) in Hlen.
  split.
  - rewrite <- Hlen. clear Hlen.
    induction ops as [|op ops IH] using rev_ind; [done|].
    rewrite run_snoc. destruct op; cbn [step]; try done.
    by apply finished_needs_trials.
  - intros Hmany. destruct (finished (run (init info) ops)) eqn:Hfin; [done|].
    destruct (session_inv_run info ops Hfin) as [_ Hspan _ _ [_ Htrial] Hacc].
    unfold TRIALS_PER_SPAN, MAX_SPAN, MIN_SPAN in *. lia.
Qed.

(** As long as no trial is submitted after the finish, no span gets more
    than [TRIALS_PER_SPAN] records: this holds of an open session and still
    after one more operation, be it the call that ends the session. *)
Theorem records_per_span info ops op s :
  finished (run (init info) ops) = false →
  Z.of_nat (length (at_span s (results (step (run (init info) ops) op))))
  ≤ TRIALS_PER_SPAN.
Proof.
  intros Hfin. destruct (session_inv_run info ops Hfin)
    as [_ Hspan Hrec Hpassed [Hcur Htrial] _].
  set (e := run (init info) ops) in *.
  assert (Hopen : ∀ t, Z.of_nat (length (at_span t (results e))) ≤ TRIALS_PER_SPAN
                       ∧ (t = current_span e →
                          Z.of_nat (length (at_span t (results e))) < TRIALS_PER_SPAN)).
  { intros t. destruct (decide (t = current_span e)) as [->|Hne]; [lia|].
    split; [|done].
    destruct (decide (MIN_SPAN ≤ t < current_span e)) as [Hin|Hout].
    - destruct (Hpassed t Hin). lia.
    - assert (at_span t (results e) = []) as ->; [|unfold TRIALS_PER_SPAN; cbn; lia].
      destruct (at_span t (results e)) as [|r l] eqn:Hat; [done|].
      assert (r ∈ at_span t (results e)) as Hr by (rewrite Hat; apply list_elem_of_here).
      apply elem_of_at_span in Hr as [<- Hr]. specialize (Hrec r Hr). lia. }
  destruct op; cbn [step]; try apply Hopen.
  rewrite submit_trial_results, at_span_snoc. cbn [recorded span_length].
  destruct (Hopen s) as [Hle Hlt]. case_decide as Heq; [|done].
  rewrite length_app. cbn [length]. symmetry in Heq. specialize (Hlt Heq). lia.
Qed.

(** ** The score of a session *)

Lemma half_le_quotient c n :
  0 < n → (1 # 2 <= inject_Z c / inject_Z n)%Q ↔ n ≤ 2 * c.
Proof.
  intros Hn. destruct n as [|p|p]; try lia.
  unfold Qle, Qdiv, Qmult, Qinv, inject_Z. cbn. lia.
Qed.

(** A span qualifies when it has records and at least half of them are
    correct. *)
Lemma qualifies_counts rs s :
  qualifies rs s ↔ 0 < trial_count rs s ∧ trial_count rs s ≤ 2 * correct_count rs s.
Proof.
  unfold qualifies, span_accuracy. rewrite span_present_count. split.
  - intros [Hn Hq]. split; [done|]. by apply half_le_quotient in Hq.
  - intros [Hn Hq]. split; [done|]. by apply half_le_quotient.
Qed.

(** The score of records that reach up to span [S], every span from
    [MIN_SPAN] to below [S] qualifying. *)
Lemma score_ladder self S :
  (∀ r, r ∈ results self → MIN_SPAN ≤ span_length r ≤ S) →
  (∀ s, MIN_SPAN ≤ s < S → qualifies (results self) s) →
  calculate_corsi_span self
  = Ok (if decide (0 < trial_count (results self) S
                     ∧ trial_count (results self) S ≤ 2 * correct_count (results self) S)
        then S
        else if decide (MIN_SPAN < S) then S - 1 else 0).
Proof.
  intros Hrange Hlower.
  destruct (calculate_corsi_span_max self) as (m & -> & Hm). f_equal.
  assert (Hin : ∀ s, qualifies (results self) s → MIN_SPAN ≤ s ≤ S).
  { intros s [(r & Hr & <-) _]. by apply Hrange. }
  case_decide as HS; rewrite <- qualifies_counts in HS.
  - destruct Hm as [[Hqm Hmax] | [_ Hnone]]; [|by apply Hnone in HS].
    specialize (Hmax S HS). specialize (Hin m Hqm). lia.
  - destruct (decide (MIN_SPAN < S)) as [Hlt|Hge].
    + assert (Hq : qualifies (results self) (S - 1)) by (apply Hlower; lia).
      destruct Hm as [[Hqm Hmax] | [_ Hnone]]; [|by apply Hnone in Hq].
      specialize (Hmax _ Hq). specialize (Hin m Hqm).
      destruct (decide (m = S)) as [->|]; [done | lia].
    + destruct Hm as [[Hqm _] | [-> _]]; [|done].
      specialize (Hin m Hqm). assert (m = S) as -> by lia. done.
Qed.

Lemma passed_span_qualifies rs s :
  Z.of_nat (length (at_span s rs)) = TRIALS_PER_SPAN →
  sum_correct (at_span s rs) ≠ 0 →
  qualifies rs s.
Proof.
  intros Hn Hsum. apply qualifies_counts.
  rewrite <- sum_correct_at_span, <- length_at_span.
  pose proof (sum_correct_bounds (at_span s rs)).
  unfold TRIALS_PER_SPAN in *. lia.
Qed.

(** The score of a session still open: the current span when its first
    trial was answered correctly, otherwise the span below it, and 0 when
    there is none. *)
Theorem open_session_score info ops :
  finished (run (init info) ops) = false →
  let e := run (init info) ops in
  calculate_corsi_span e
  = Ok (if decide (sum_correct (at_span (current_span e) (results e)) = 0)
        then if decide (current_span e = MIN_SPAN) then 0 else current_span e - 1
        else current_span e).
Proof.
  intros Hfin e. destruct (session_inv_run info ops Hfin)
    as [_ Hspan Hrec Hpassed [Hcur Htrial] _]. fold e in Hspan, Hrec, Hpassed, Hcur, Htrial.
  rewrite (score_ladder e (current_span e)).
  - f_equal. rewrite <- sum_correct_at_span, <- length_at_span.
    pose proof (sum_correct_bounds (at_span (current_span e) (results e))).
    unfold TRIALS_PER_SPAN in *. repeat case_decide; lia.
  - intros r Hr. by apply Hrec.
  - intros s Hs. destruct (Hpassed s Hs). by apply passed_span_qualifies.
Qed.

(** The score at the moment a session ends.  Ended by the discontinue rule
    at span [S] it is [S - 1], or 0 when [S] is [MIN_SPAN]; ended at the
    ceiling it is [MAX_SPAN]. *)
Theorem finished_session_score info ops seq resp now :
  finished (run (init info) ops) = false →
  let e := run (init info) ops in
  let e' := (submit_trial e seq resp now).1 in
  finished e' = true →
  calculate_corsi_span e'
  = Ok (if decide (sum_correct (at_span (current_span e) (results e')) = 0)
        then if decide (current_span e = MIN_SPAN) then 0 else current_span e - 1
        else MAX_SPAN).
Proof.
  intros Hfin e e' Hfin'. destruct (session_inv_run info ops Hfin)
    as [_ Hspan Hrec Hpassed [Hcur Htrial] _].
  fold e in Hspan, Hrec, Hpassed, Hcur, Htrial.
  pose proof (submit_trial_cases e seq resp now) as Hcases. cbv zeta in Hcases.
  pose proof (submit_trial_results e seq resp now) as Hres.
  fold e' in Hcases, Hres.
  assert (Hat : ∀ s, at_span s (results e')
                     = if decide (current_span e = s)
                       then at_span s (results e) ++ [recorded e seq resp now]
                       else at_span s (results e)).
  { intros s. rewrite Hres. apply at_span_snoc. }
  assert (Hcount : Z.of_nat (length (at_span (current_span e) (results e')))
                   = current_trial e).
  { rewrite Hat, decide_True, length_app by done. cbn [length]. lia. }
  rewrite (score_ladder e' (current_span e)).
  - f_equal. rewrite <- sum_correct_at_span, <- length_at_span.
    pose proof (sum_correct_bounds (at_span (current_span e) (results e'))).
    fold e in Hfin.
    destruct Hcases
      as [(_ & _ & _ & ?)|[(? & ? & _)|[(_ & _ & _ & _ & _ & ?)|(? & ? & ? & _)]]];
      try congruence; unfold TRIALS_PER_SPAN in *; repeat case_decide; lia.
  - intros r. rewrite Hres, elem_of_app, list_elem_of_singleton.
    intros [Hr| ->]; [by apply Hrec | simpl; lia].
  - intros s Hs. destruct (Hpassed s Hs).
    apply passed_span_qualifies; by rewrite Hat, decide_False by lia.
Qed.

(** ** Every engine reached from [init] *)

Lemma reachable_records info ops r :
  r ∈ results (run (init info) ops) →
  MIN_SPAN ≤ span_length r ≤ current_span (run (init info) ops) ∧
  1 ≤ trial_number r ≤ TRIALS_PER_SPAN.
Proof.
  revert r. induction ops as [|op ops IH] using rev_ind; intros r.
  - intros Hr. by apply not_elem_of_nil in Hr.
  - rewrite run_snoc. set (e := run (init info) ops) in *.
    destruct op; cbn [step]; try apply IH.
    rewrite submit_trial_results, elem_of_app, list_elem_of_singleton.
    pose proof (submit_trial_span_step e seq resp now) as [[Hmono _] _].
    assert (Hinv : engine_inv e) by apply engine_inv_run, engine_inv_init.
    intros [Hr | ->].
    + specialize (IH r Hr). lia.
    + pose proof (engine_inv_trial_range e Hinv). destruct Hinv as [Hspan _ _].
      cbn [recorded span_length trial_number]. lia.
Qed.

(** The records of an engine reached from [init], finished or not, and
    whatever was submitted after the finish: the span of each lies between
    [MIN_SPAN] and the current span, hence below [MAX_SPAN]; its trial
    number lies between 1 and [TRIALS_PER_SPAN]. *)
Theorem reachable_records_in_range info ops :
  let e := run (init info) ops in
  Forall (λ r, MIN_SPAN ≤ span_length r ≤ current_span e ∧
               current_span e ≤ MAX_SPAN ∧
               1 ≤ trial_number r ≤ TRIALS_PER_SPAN) (results e).
Proof.
  intros e. apply Forall_forall. intros r Hr.
  pose proof (reachable_records info ops r Hr) as [? ?].
  assert (Hinv : engine_inv e) by apply engine_inv_run, engine_inv_init.
  destruct Hinv as [Hspan _ _]. fold e in H. lia.
Qed.

(** The score of an engine reached from [init] is 0 or a span between
    [MIN_SPAN] and the current span. *)
Theorem reachable_score_range info ops :
  let e := run (init info) ops in
  ∃ m, calculate_corsi_span e = Ok m ∧
       (m = 0 ∨ MIN_SPAN ≤ m ≤ current_span e) ∧ m ≤ MAX_SPAN.
Proof.
  intros e. destruct (calculate_corsi_span_max e) as (m & Hm & Hcases).
  exists m. split; [done|].
  assert (Hinv : engine_inv e) by apply engine_inv_run, engine_inv_init.
  destruct Hinv as [Hspan _ _]. unfold MAX_SPAN, MIN_SPAN in *.
  destruct Hcases as [[[(r & Hr & <-) _] _] | [-> _]]; [|lia].
  pose proof (reachable_records info ops r Hr) as [? _]. fold e in H.
  unfold MIN_SPAN in *. lia.
Qed.

Lemma new_sequence_reachable info ops sample :
  new_sequence (run (init info) ops) sample = Ok sample.
Proof.
  assert (Hinv : engine_inv (run (init info) ops))
    by apply engine_inv_run, engine_inv_init.
  destruct Hinv as [Hspan _ _]. unfold new_sequence.
  rewrite decide_True; [done|]. unfold MIN_SPAN, MAX_SPAN, NUM_BLOCKS in *. lia.
Qed.

(** ** The summary *)

Lemma percent_bounds c n :
  0 ≤ c ≤ n → 0 < n →
  (0 <= inject_Z c / inject_Z n * 100)%Q ∧ (inject_Z c / inject_Z n * 100 <= 100)%Q.
Proof.
  intros Hc Hn. destruct n as [|p|p]; try lia.
  unfold Qle, Qdiv, Qmult, Qinv, inject_Z. cbn. lia.
Qed.

Lemma save_session_fields self now sd calls :
  save_session self now = Ok (Some sd, calls) →
  calculate_corsi_span self = Ok (corsi_span sd) ∧
  total_trials sd = Z.of_nat (length (results self)) ∧
  0 < total_trials sd ∧
  correct_trials sd = sum_correct (results self) ∧
  accuracy sd = (inject_Z (correct_trials sd) / inject_Z (total_trials sd) * 100)%Q ∧
  session_number sd = session (candidate_info self) ∧
  test_date sd = now ∧
  data_files sd = [] ∧
  calls = [ save_candidate (candidate_info self);
            save_test_session (candidate_id (candidate_info self)) sd ].
Proof.
  intros Hsave.
  destruct (results self) as [|r rs] eqn:Hrs.
  { unfold save_session in Hsave. by rewrite Hrs in Hsave. }
  destruct (save_session_nonempty self now) as (span & Hspan & Hsave').
  { by rewrite Hrs. }
  cbv zeta in Hsave'. rewrite Hsave' in Hsave.
  injection Hsave as Hsd Hcalls. subst sd calls. cbn. rewrite Hrs.
  split_and!; try done; cbn [length]; lia.
Qed.

(** The summary [save_session] returns: between 1 and all of the trials
    counted, no more correct ones than trials, an accuracy between 0 and
    100, the session number of the candidate, no data file; and the two
    database calls carry the candidate and that same summary. *)
Theorem save_session_summary_bounds self now sd calls :
  save_session self now = Ok (Some sd, calls) →
  1 ≤ total_trials sd ∧
  0 ≤ correct_trials sd ≤ total_trials sd ∧
  (0 <= accuracy sd <= 100)%Q ∧
  session_number sd = session (candidate_info self) ∧
  test_date sd = now ∧
  data_files sd = [] ∧
  calls = [ save_candidate (candidate_info self);
            save_test_session (candidate_id (candidate_info self)) sd ].
Proof.
  intros Hsave.
  destruct (save_session_fields self now sd calls Hsave)
    as (_ & Htotal & Hpos & Hcorrect & Hacc & ? & ? & ? & ?).
  pose proof (sum_correct_bounds (results self)) as Hb.
  rewrite <- Hcorrect, <- Htotal in Hb. rewrite Hacc.
  split_and!; try done; try lia; by apply percent_bounds.
Qed.

(** ** The session table *)

Lemma post_submit_trial_open srv sid engine seq resp now now_saved :
  SESSIONS srv !! sid = Some engine →
  finished (submit_trial engine seq resp now).1 = false →
  post_submit_trial srv sid seq resp now now_saved
  = ({| SESSIONS := <[sid := (submit_trial engine seq resp now).1]> (SESSIONS srv);
        db_log := db_log srv |},
     Http200 ((submit_trial engine seq resp now).2, None)).
Proof.
  intros Hlook Hfin. unfold post_submit_trial. rewrite Hlook.
  assert (Hout : out_finished (submit_trial engine seq resp now).2 = false)
    by exact Hfin.
  destruct (submit_trial engine seq resp now) as [engine' outcome].
  cbn [fst snd] in *. by rewrite Hout.
Qed.

Lemma post_submit_trial_done srv sid engine seq resp now now_saved :
  SESSIONS srv !! sid = Some engine →
  finished (submit_trial engine seq resp now).1 = true →
  ∃ sd, save_session (submit_trial engine seq resp now).1 now_saved
        = Ok (Some sd, [ save_candidate (candidate_info engine);
                         save_test_session (candidate_id (candidate_info engine)) sd ]) ∧
        post_submit_trial srv sid seq resp now now_saved
        = ({| SESSIONS := <[sid := (submit_trial engine seq resp now).1]> (SESSIONS srv);
              db_log := db_log srv ++
                [ save_candidate (candidate_info engine);
                  save_test_session (candidate_id (candidate_info engine)) sd ] |},
           Http200 ((submit_trial engine seq resp now).2, Some (Some sd))).
Proof.
  intros Hlook Hfin. unfold post_submit_trial. rewrite Hlook.
  assert (Hout : out_finished (submit_trial engine seq resp now).2 = true)
    by exact Hfin.
  destruct (save_session_nonempty (submit_trial engine seq resp now).1 now_saved)
    as (span & _ & Hsave).
  { rewrite submit_trial_results. by destruct (results engine). }
  cbv zeta in Hsave. rewrite submit_trial_candidate in Hsave.
  destruct (submit_trial engine seq resp now) as [engine' outcome].
  cbn [fst snd] in *. rewrite Hout, Hsave. eexists. split; reflexivity.
Qed.

(** What POST /api/submit-trial does for a known session: the stored
    engine is replaced by the engine after the trial; while that engine is
    not finished nothing is written to the database and no summary is
    answered; once it is finished the summary answered is the one
    [save_session] computes, and it is what goes to the database, behind the
    candidate. *)
Theorem post_submit_trial_known srv sid engine seq resp now now_saved :
  SESSIONS srv !! sid = Some engine →
  let engine' := (submit_trial engine seq resp now).1 in
  let outcome := (submit_trial engine seq resp now).2 in
  (finished engine' = false →
   post_submit_trial srv sid seq resp now now_saved
   = ({| SESSIONS := <[sid := engine']> (SESSIONS srv); db_log := db_log srv |},
      Http200 (outcome, None))) ∧
  (finished engine' = true →
   ∃ sd, save_session engine' now_saved
         = Ok (Some sd, [ save_candidate (candidate_info engine);
                          save_test_session (candidate_id (candidate_info engine)) sd ]) ∧
         post_submit_trial srv sid seq resp now now_saved
         = ({| SESSIONS := <[sid := engine']> (SESSIONS srv);
               db_log := db_log srv ++
                 [ save_candidate (candidate_info engine);
                   save_test_session (candidate_id (candidate_info engine)) sd ] |},
            Http200 (outcome, Some (Some sd)))).
Proof.
  intros Hlook engine' outcome. split; intros Hfin.
  - by apply post_submit_trial_open.
  - by apply post_submit_trial_done.
Qed.

(** A request for a session leaves every other session as it is; one for
    an unknown session is answered 404 and leaves the whole server as it
    is. *)
Theorem post_submit_trial_isolation srv sid seq resp now now_saved :
  (∀ other, other ≠ sid →
     SESSIONS (post_submit_trial srv sid seq resp now now_saved).1 !! other
     = SESSIONS srv !! other) ∧
  (SESSIONS srv !! sid = None →
     post_submit_trial srv sid seq resp now now_saved = (srv, Http404)).
Proof.
  unfold post_submit_trial. destruct (SESSIONS srv !! sid) as [engine|] eqn:Hlook.
  - split; [|done]. intros other Hne.
    destruct (submit_trial engine seq resp now) as [engine' outcome].
    destruct (out_finished outcome); [destruct (save_session _ _) as [[? ?]|]|];
      cbn; by rewrite lookup_insert_ne.
  - done.
Qed.

Lemma serve_snoc srv sid reqs req :
  serve srv sid (reqs ++ [req])
  = (post_submit_trial (serve srv sid reqs) sid (req_sequence req)
       (req_response req) (req_now req) (req_now_saved req)).1.
Proof. unfold serve. by rewrite foldl_app. Qed.

Lemma post_submit_trial_stores srv sid engine seq resp now now_saved :
  SESSIONS srv !! sid = Some engine →
  SESSIONS (post_submit_trial srv sid seq resp now now_saved).1 !! sid
  = Some (submit_trial engine seq resp now).1.
Proof.
  intros Hlook. unfold post_submit_trial. rewrite Hlook.
  destruct (submit_trial engine seq resp now) as [engine' outcome].
  destruct (out_finished outcome); [destruct (save_session _ _) as [[? ?]|]|];
    cbn; by rewrite lookup_insert_eq.
Qed.

Lemma serve_lookup srv sid engine reqs :
  SESSIONS srv !! sid = Some engine →
  SESSIONS (serve srv sid reqs) !! sid = Some (run engine (trial_op <$> reqs)).
Proof.
  intros Hlook. induction reqs as [|req reqs IH] using rev_ind; [done|].
  rewrite serve_snoc, fmap_app.
  change (trial_op <$> [req]) with [trial_op req]. rewrite run_snoc.
  by apply post_submit_trial_stores.
Qed.

Lemma post_submit_trial_others srv sid seq resp now now_saved other :
  other ≠ sid →
  SESSIONS (post_submit_trial srv sid seq resp now now_saved).1 !! other
  = SESSIONS srv !! other.
Proof.
  intros Hne. unfold post_submit_trial.
  destruct (SESSIONS srv !! sid) as [engine|]; [|done].
  destruct (submit_trial engine seq resp now) as [engine' outcome].
  destruct (out_finished outcome); [destruct (save_session _ _) as [[? ?]|]|];
    cbn; by rewrite lookup_insert_ne.
Qed.

(** The engine the table holds for a session after a series of requests is
    the engine the session had, run through the trials submitted; the
    engines of the other sessions are those the table held before. *)
Theorem serve_tracks_engine srv sid engine reqs :
  SESSIONS srv !! sid = Some engine →
  SESSIONS (serve srv sid reqs) !! sid = Some (run engine (trial_op <$> reqs)) ∧
  ∀ other, other ≠ sid →
    SESSIONS (serve srv sid reqs) !! other = SESSIONS srv !! other.
Proof.
  intros Hlook. split; [by apply serve_lookup|].
  intros other Hne. induction reqs as [|req reqs IH] using rev_ind; [done|].
  rewrite serve_snoc, post_submit_trial_others by done. exact IH.
Qed.

Lemma run_candidate self ops : candidate_info (run self ops) = candidate_info self.
Proof.
  induction ops as [|op ops IH] using rev_ind; [done|].
  rewrite run_snoc. destruct op; cbn [step]; try done.
  by rewrite submit_trial_candidate.
Qed.

Lemma run_unfinished_prefix self ops more :
  finished (run self (ops ++ more)) = false → finished (run self ops) = false.
Proof.
  rewrite run_app. intros Hfin.
  destruct (finished (run self ops)) eqn:Hf; [|done].
  by rewrite run_finished in Hfin.
Qed.

Lemma serve_log_open srv sid engine reqs :
  SESSIONS srv !! sid = Some engine →
  finished (run engine (trial_op <$> reqs)) = false →
  db_log (serve srv sid reqs) = db_log srv.
Proof.
  intros Hlook. induction reqs as [|req reqs IH] using rev_ind; [done|].
  intros Hfin. rewrite fmap_app in Hfin.
  pose proof (run_unfinished_prefix _ _ _ Hfin) as Hpre.
  change (trial_op <$> [req]) with [trial_op req] in Hfin. rewrite run_snoc in Hfin.
  rewrite serve_snoc.
  pose proof (serve_lookup srv sid engine reqs Hlook) as Htrack.
  rewrite (post_submit_trial_open _ _ _ _ _ _ _ Htrack) by exact Hfin.
  cbn. by apply IH.
Qed.

Lemma serve_unknown srv sid reqs :
  SESSIONS srv !! sid = None → serve srv sid reqs = srv.
Proof.
  intros Hnone. induction reqs as [|req reqs IH] using rev_ind; [done|].
  rewrite serve_snoc, IH. unfold post_submit_trial. by rewrite Hnone.
Qed.

(** Nothing reaches the database while the session is open: as long as the
    engine is not finished after the trials submitted, the database log is
    what it was.  And requests for a session the table does not hold leave
    the whole server as it was. *)
Theorem serve_no_write_while_open srv sid reqs :
  (∀ engine,
     SESSIONS srv !! sid = Some engine →
     finished (run engine (trial_op <$> reqs)) = false →
     db_log (serve srv sid reqs) = db_log srv) ∧
  (SESSIONS srv !! sid = None → serve srv sid reqs = srv).
Proof.
  split.
  - intros engine. apply serve_log_open.
  - apply serve_unknown.
Qed.

Lemma submits_trial_ops (reqs : list TrialRequest) :
  submits (trial_op <$> reqs) = length reqs.
Proof.
  unfold submits. induction reqs as [|req reqs IH]; [done|].
  rewrite fmap_cons, filter_cons_True by done. cbn [length]. by rewrite IH.
Qed.

(** A whole session over the wire: started by a valid start-session
    request, served trials that leave it open and then the trial that ends
    it.  The database receives, once, the candidate followed by the
    summary; the summary counts every trial and carries the candidate's
    session number and the score of the engine. *)
Theorem session_lifecycle srv body c uuid (reqs : list TrialRequest) req :
  CandidateInfo_validate body = Some c →
  finished (run (init c) (trial_op <$> reqs)) = false →
  finished (run (init c) (trial_op <$> (reqs ++ [req]))) = true →
  ∃ sd,
    db_log (serve (post_start_session srv body uuid).1 uuid (reqs ++ [req]))
    = db_log srv ++ [save_candidate c; save_test_session (candidate_id c) sd] ∧
    total_trials sd = Z.of_nat (length reqs) + 1 ∧
    session_number sd = session c ∧
    calculate_corsi_span (run (init c) (trial_op <$> (reqs ++ [req])))
    = Ok (corsi_span sd).
Proof.
  intros Hv Hopen Hend.
  rewrite (post_start_session_stores srv body c uuid Hv). cbn [fst].
  set (srv0 := {| SESSIONS := <[uuid:=init c]> (SESSIONS srv); db_log := db_log srv |}).
  assert (Hlook : SESSIONS srv0 !! uuid = Some (init c)) by apply lookup_insert_eq.
  pose proof (serve_lookup srv0 uuid (init c) reqs Hlook) as Htrack.
  pose proof (serve_log_open srv0 uuid (init c) reqs Hlook Hopen) as Hlog.
  rewrite fmap_app in Hend |- *.
  change (trial_op <$> [req]) with [trial_op req] in Hend |- *.
  rewrite run_snoc in Hend |- *. rewrite serve_snoc. cbn [step trial_op] in Hend |- *.
  destruct (post_submit_trial_done (serve srv0 uuid reqs) uuid _ (req_sequence req)
              (req_response req) (req_now req) (req_now_saved req) Htrack Hend)
    as (sd & Hsave & ->). cbn [fst db_log].
  rewrite run_candidate in Hsave |- *. cbn [init candidate_info] in Hsave |- *.
  exists sd. rewrite Hlog. split; [done|].
  destruct (save_session_fields _ _ _ _ Hsave) as (Hscore & Htotal & _ & _ & _ & Hnum & _).
  rewrite submit_trial_candidate, run_candidate in Hnum.
  split_and!; [|done..].
  rewrite Htotal, submit_trial_results, length_app, run_results_length.
  rewrite submits_trial_ops. cbn [init results length]. lia.
Qed.

(** GET /api/sequence: 404 for an unknown session; for a session started
    on a fresh engine, whatever trials were submitted since, the drawn
    sequence is answered together with the state of the engine, never a
    500. *)
Theorem get_sequence_answers srv sid sample :
  (SESSIONS srv !! sid = None → get_sequence srv sid sample = Http404) ∧
  (∀ c reqs,
     SESSIONS srv !! sid = Some (init c) →
     get_sequence (serve srv sid reqs) sid sample
     = Http200 (sample, _state (run (init c) (trial_op <$> reqs)))).
Proof.
  split.
  - intros Hnone. unfold get_sequence. by rewrite Hnone.
  - intros c reqs Hlook. unfold get_sequence.
    rewrite (serve_lookup srv sid (init c) reqs Hlook).
    by rewrite new_sequence_reachable.
Qed.

(** ** utils/validation.py *)

(** The check accepts exactly the dicts with a non-empty name, a non-empty
    id and a session that [int] reads as a number of at least 1. *)
Theorem validate_candidate_info_accepts py_int (info : gmap string string) :
  validate_candidate_info py_int info = Ok true ↔
  ∃ name cid raw n,
    info !! "candidate_name" = Some name ∧ name ≠ "" ∧
    info !! "candidate_id" = Some cid ∧ cid ≠ "" ∧
    info !! "session" = Some raw ∧ py_int raw = Some n ∧ 1 ≤ n.
Proof.
  unfold validate_candidate_info, getitem. split.
  - intros Hv.
    destruct (info !! "candidate_name") as [name|]; [|done]. cbn in Hv.
    destruct name as [|a name]; [done|]. cbn in Hv.
    destruct (info !! "candidate_id") as [cid|]; [|done]. cbn in Hv.
    destruct cid as [|b cid]; [done|]. cbn in Hv.
    destruct (info !! "session") as [raw|]; [|done]. cbn in Hv.
    destruct (py_int raw) as [n|] eqn:Hn; [|done].
    case_decide; [done|].
    exists (String a name), (String b cid), raw, n. split_and!; try done. lia.
  - intros (name & cid & raw & n & -> & Hname & -> & Hcid & -> & Hn & Hle). cbn.
    destruct name; [done|]. cbn. destruct cid; [done|]. cbn.
    rewrite Hn. by rewrite decide_False by lia.
Qed.

(** How the check fails.  An empty name is turned down before the id or
    the session is looked at, an empty id before the session; a session
    that [int] does not read, or reads below 1, is turned down; but a dict
    without the key of the session raises [KeyError], which the [except
    ValueError] of the check does not catch. *)
Theorem validate_candidate_info_rejects py_int (info : gmap string string) :
  (info !! "candidate_name" = Some "" →
   validate_candidate_info py_int info = Ok false) ∧
  (∀ name, info !! "candidate_name" = Some name → name ≠ "" →
     info !! "candidate_id" = Some "" →
     validate_candidate_info py_int info = Ok false) ∧
  (∀ name cid raw,
     info !! "candidate_name" = Some name → name ≠ "" →
     info !! "candidate_id" = Some cid → cid ≠ "" →
     info !! "session" = Some raw →
     (py_int raw = None ∨ ∃ n, py_int raw = Some n ∧ n < 1) →
     validate_candidate_info py_int info = Ok false) ∧
  (∀ name cid,
     info !! "candidate_name" = Some name → name ≠ "" →
     info !! "candidate_id" = Some cid → cid ≠ "" →
     info !! "session" = None →
     validate_candidate_info py_int info = Raise KeyError).
Proof.
  unfold validate_candidate_info, getitem. split_and!.
  - by intros ->.
  - intros name -> Hname ->. by destruct name.
  - intros name cid raw -> Hname -> Hcid -> Hbad.
    destruct name; [done|]. destruct cid; [done|]. cbn.
    destruct Hbad as [-> | (n & -> & Hn)]; [done|]. by rewrite decide_True.
  - intros name cid -> Hname -> Hcid ->.
    destruct name; [done|]. by destruct cid.
Qed.

(** ** The database *)

Section DatabaseProperties.

Import DatabaseManager.

Lemma sessions_of_same_sessions db db' cid :
  test_sessions db' = test_sessions db → sessions_of db' cid = sessions_of db cid.
Proof. unfold sessions_of. by intros ->. Qed.

Lemma consistent_save_candidate db info now io_ok :
  consistent db → consistent (save_candidate db info now io_ok).1.
Proof.
  intros Hc. unfold save_candidate. destruct io_ok; [|done]. cbn.
  intros cid. specialize (Hc cid). unfold sessions_of in *. cbn.
  destruct (decide (cid = candidate_id info)) as [->|Hne].
  - rewrite lookup_insert_eq.
    destruct (candidates db !! candidate_id info); done.
  - by rewrite lookup_insert_ne.
Qed.

(** Saving a candidate again.  The second save, under the same id, leaves
    one row for the id, holding the fields of the second save; the creation
    date and the session counter are those the row had; no other candidate
    and no session is touched, and the number of candidates is the same. *)
Theorem save_candidate_again db info info' now now' :
  candidate_id info' = candidate_id info →
  let db1 := (save_candidate db info now true).1 in
  let db2 := (save_candidate db1 info' now' true).1 in
  (∃ row1 row2,
     candidates db1 !! candidate_id info = Some row1 ∧
     candidates db2 !! candidate_id info = Some row2 ∧
     row_candidate_name row2 = candidate_name info' ∧
     row_age row2 = age info' ∧
     row_gender row2 = gender info' ∧
     row_examiner_name row2 = Some (examiner_name info') ∧
     row_additional_notes row2 = additional_notes info' ∧
     row_last_session_date row2 = Some now' ∧
     row_date_created row2 = row_date_created row1 ∧
     row_total_sessions row2 = row_total_sessions row1) ∧
  (∀ other, other ≠ candidate_id info →
     candidates db2 !! other = candidates db !! other) ∧
  size (candidates db2) = size (candidates db1) ∧
  test_sessions db2 = test_sessions db ∧
  (consistent db → consistent db2).
Proof.
  intros Hid db1 db2. split_and!.
  - subst db1 db2. unfold save_candidate. cbn. rewrite Hid, lookup_insert_eq.
    eexists. eexists. split; [done|].
    split; [by rewrite lookup_insert_eq|]. cbn.
    destruct (candidates db !! candidate_id info); done.
  - intros other Hne. subst db1 db2. unfold save_candidate. cbn.
    rewrite Hid. by rewrite !lookup_insert_ne.
  - subst db1 db2. unfold save_candidate. cbn. rewrite Hid, insert_insert_eq.
    destruct (candidates db !! candidate_id info) as [old|] eqn:Hold.
    + rewrite !map_size_insert_Some; done.
    + rewrite !map_size_insert_None; done.
  - done.
  - intros Hc. apply consistent_save_candidate, consistent_save_candidate, Hc.
Qed.

Lemma sessions_of_snoc db row cid :
  filter (λ r, ses_candidate_id r = cid) (test_sessions db ++ [row])
  = if decide (ses_candidate_id row = cid)
    then sessions_of db cid ++ [row] else sessions_of db cid.
Proof.
  unfold sessions_of. rewrite filter_app, filter_cons, filter_nil.
  case_decide; [done | by rewrite app_nil_r].
Qed.

Lemma consistent_save_test_session json_dumps fk db cid sd io_ok :
  consistent db → is_Some (candidates db !! cid) →
  consistent (save_test_session json_dumps fk db cid sd io_ok).1.
Proof.
  intros Hc [row Hrow]. unfold save_test_session. destruct io_ok; [|done].
  rewrite Hrow. rewrite bool_decide_eq_false_2 by done. rewrite andb_false_r. cbn.
  intros cid'. specialize (Hc cid'). unfold sessions_of at 1. cbn.
  rewrite sessions_of_snoc. cbn.
  destruct (decide (cid = cid')) as [<-|Hne].
  - rewrite lookup_insert_eq, length_app. cbn. rewrite Hrow in Hc. lia.
  - rewrite lookup_insert_ne by done. done.
Qed.

(** A finished session written to the database, SQLite serving both
    calls.  One session row is added, holding the summary; the candidate
    has a row with the fields of the engine's candidate, its counter one
    above the number of sessions the candidate had, its last date the date
    of the summary; and counters that matched the stored sessions still
    do. *)
Theorem persist_session json_dumps fk db self now sd calls now1 now2 :
  save_session self now = Ok (Some sd, calls) →
  consistent db →
  let db' := perform_all json_dumps fk db calls [(now1, true); (now2, true)] in
  let cid := candidate_id (candidate_info self) in
  consistent db' ∧
  test_sessions db'
  = test_sessions db ++
    [ {| ses_candidate_id := cid;
         ses_session_number := session (candidate_info self);
         ses_test_date := now;
         ses_corsi_span := corsi_span sd;
         ses_total_trials := Z.of_nat (length (results self));
         ses_correct_trials := correct_trials sd;
         ses_accuracy := accuracy sd;
         ses_data_files := json_dumps [] |} ] ∧
  (∃ row, candidates db' !! cid = Some row ∧
          row_candidate_name row = candidate_name (candidate_info self) ∧
          row_total_sessions row = Z.of_nat (length (sessions_of db cid)) + 1 ∧
          row_last_session_date row = Some now) ∧
  (∀ other, other ≠ cid → candidates db' !! other = candidates db !! other).
Proof.
  intros Hsave Hc db' cid.
  destruct (save_session_fields self now sd calls Hsave)
    as (_ & Htotal & _ & _ & _ & Hnum & Hdate & Hfiles & ->).
  subst db'. cbn [perform_all perform fst].
  set (db1 := (save_candidate db (candidate_info self) now1 true).1).
  assert (Hc1 : consistent db1) by by apply consistent_save_candidate.
  assert (Hrow1 : ∃ row1, candidates db1 !! cid = Some row1 ∧
            row_candidate_name row1 = candidate_name (candidate_info self) ∧
            row_total_sessions row1 = Z.of_nat (length (sessions_of db cid))).
  { unfold db1, save_candidate. cbn. rewrite lookup_insert_eq. eexists.
    split; [done|]. specialize (Hc cid). fold cid.
    destruct (candidates db !! cid); cbn; split; done. }
  destruct Hrow1 as (row1 & Hrow1 & Hname1 & Htot1).
  split_and!.
  - apply consistent_save_test_session; [done | by exists row1].
  - unfold save_test_session. fold cid. rewrite Hrow1.
    rewrite bool_decide_eq_false_2 by done. rewrite andb_false_r. cbn.
    by rewrite Hnum, Hdate, Htotal, Hfiles.
  - unfold save_test_session. fold cid. rewrite Hrow1.
    rewrite bool_decide_eq_false_2 by done. rewrite andb_false_r. cbn.
    rewrite lookup_insert_eq. eexists. split; [done|]. cbn.
    rewrite Hdate, Htot1. done.
  - intros other Hne. unfold save_test_session. fold cid. rewrite Hrow1.
    rewrite bool_decide_eq_false_2 by done. rewrite andb_false_r. cbn.
    rewrite lookup_insert_ne by done. unfold db1, save_candidate. cbn.
    fold cid. by rewrite lookup_insert_ne.
Qed.

End DatabaseProperties.

(** ** The layout of the blocks *)

Lemma choice_elem seq i : seq ≠ [] → choice seq i ∈ seq.
Proof.
  intros Hne. unfold choice. apply list_elem_of_In, nth_In.
  apply Nat.mod_upper_bound. by destruct seq.
Qed.

Lemma far_enough_sym p q : far_enough p q = far_enough q p.
Proof. unfold far_enough. f_equal. lia. Qed.

Lemma far_enough_irrefl p : far_enough p p = false.
Proof.
  unfold far_enough, MIN_BLOCK_DISTANCE. apply Z.leb_gt.
  replace (p.1 - p.1) with 0 by lia. replace (p.2 - p.2) with 0 by lia. lia.
Qed.

Lemma place_blocks_succ draw n attempts positions :
  place_blocks draw (S n) attempts positions
  = if decide (Z.of_nat (length positions) < NUM_BLOCKS) then
      place_blocks draw n (S attempts)
        (if forallb (far_enough (choice x_range (draw attempts).1,
                                 choice y_range (draw attempts).2)) positions
         then positions ++ [(choice x_range (draw attempts).1,
                             choice y_range (draw attempts).2)]
         else positions)
    else positions.
Proof. reflexivity. Qed.

Lemma place_blocks_inv draw attempts_left attempts positions :
  layout_inv positions →
  layout_inv (place_blocks draw attempts_left attempts positions).
Proof.
  revert attempts positions.
  induction attempts_left as [|n IH]; intros attempts positions Hinv; [done|].
  rewrite place_blocks_succ. case_decide as Hlen; [|done]. apply IH.
  destruct (forallb _ positions) eqn:Hall; [|done].
  set (pos := (choice x_range (draw attempts).1, choice y_range (draw attempts).2)) in *.
  destruct Hinv as [Hn Hgrid Hnd Hfar].
  assert (Hfresh : ∀ q, q ∈ positions → far_enough pos q = true).
  { intros q Hq. rewrite forallb_forall in Hall. by apply Hall, list_elem_of_In. }
  assert (Hnotin : pos ∉ positions).
  { intros Hin. specialize (Hfresh pos Hin). by rewrite far_enough_irrefl in Hfresh. }
  split.
  - rewrite length_app. cbn [length]. lia.
  - intros p [Hp| ->%list_elem_of_singleton]%elem_of_app; [by apply Hgrid|].
    split; by apply choice_elem.
  - apply NoDup_app. split_and!; [done| |apply NoDup_singleton].
    intros p Hp ->%list_elem_of_singleton. done.
  - intros p q [Hp| ->%list_elem_of_singleton]%elem_of_app
                [Hq| ->%list_elem_of_singleton]%elem_of_app Hne.
    + by apply Hfar.
    + rewrite far_enough_sym. by apply Hfresh.
    + by apply Hfresh.
    + done.
Qed.

Lemma place_blocks_first draw attempts_left attempts positions :
  positions ≠ [] → place_blocks draw attempts_left attempts positions ≠ [].
Proof.
  revert attempts positions.
  induction attempts_left as [|n IH]; intros attempts positions Hne; [done|].
  rewrite place_blocks_succ. case_decide; [|done]. apply IH.
  destruct (forallb _ positions); [|done]. by destruct positions.
Qed.

(** The layout [generate_random_block_positions] returns, whatever is
    drawn: between 1 and [NUM_BLOCKS] positions, each on the grid of
    [x_range] and [y_range], no position twice, and any two of them at
    least [MIN_BLOCK_DISTANCE] apart. *)
Theorem block_positions_layout draw :
  let positions := generate_random_block_positions draw in
  1 ≤ Z.of_nat (length positions) ≤ NUM_BLOCKS ∧
  (∀ p, p ∈ positions → p.1 ∈ x_range ∧ p.2 ∈ y_range) ∧
  NoDup positions ∧
  (∀ p q, p ∈ positions → q ∈ positions → p ≠ q →
     MIN_BLOCK_DISTANCE ^ 2 ≤ (p.1 - q.1) ^ 2 + (p.2 - q.2) ^ 2).
Proof.
  intros positions.
  assert (Hinv : layout_inv positions).
  { apply place_blocks_inv. split; cbn.
    - unfold NUM_BLOCKS. lia.
    - intros p Hp. by apply not_elem_of_nil in Hp.
    - apply NoDup_nil_2.
    - intros p q Hp. by apply not_elem_of_nil in Hp. }
  destruct Hinv as [Hn Hgrid Hnd Hfar]. split_and!; try done.
  - assert (positions ≠ []) as Hne.
    { unfold positions, generate_random_block_positions.
      replace max_attempts with (S (Nat.pred max_attempts)) by reflexivity.
      rewrite place_blocks_succ, decide_True by (unfold NUM_BLOCKS; cbn [length]; lia).
      by apply place_blocks_first. }
    destruct positions; [done | cbn [length]; lia].
  - intros p q Hp Hq Hne. specialize (Hfar p q Hp Hq Hne).
    unfold far_enough in Hfar. apply Z.leb_le in Hfar. lia.
Qed.

(** ** Clicks *)

Lemma Qlt_bool_spec a b : Qlt_bool a b = true ↔ (a < b)%Q.
Proof.
  unfold Qlt_bool. rewrite negb_true_iff, <- not_true_iff_false, Qle_bool_iff.
  split; [apply Qnot_le_lt | apply Qlt_not_le].
Qed.

(** A click is on a block when it is less than half a block away from
    its centre along both axes. *)
Lemma click_on_block_near mouse block :
  _is_click_on_block mouse block = true →
  (- 40 < (mouse.1) - inject_Z (block.1) < 40)%Q ∧
  (- 40 < (mouse.2) - inject_Z (block.2) < 40)%Q.
Proof.
  unfold _is_click_on_block. cbn zeta.
  rewrite andb_true_iff, !Qlt_bool_spec.
  assert (inject_Z BLOCK_SIZE / 2 == 40)%Q as -> by reflexivity.
  intros [Hx Hy]. apply Qabs_Qlt_condition in Hx, Hy. done.
Qed.

Lemma close_on_axis (m : Q) (a b : Z) :
  (- 40 < m - inject_Z a < 40)%Q → (- 40 < m - inject_Z b < 40)%Q → -80 < a - b < 80.
Proof.
  intros [Ha1 Ha2] [Hb1 Hb2].
  assert (inject_Z (-80) < inject_Z (a - b) < inject_Z 80)%Q as [H1 H2].
  { unfold Z.sub. rewrite inject_Z_plus, inject_Z_opp.
    change (inject_Z (-80)) with (-80)%Q. change (inject_Z 80) with 80%Q.
    split; lra. }
  rewrite <- Zlt_Qlt in H1, H2. lia.
Qed.

(** No click is on two blocks of a layout: the blocks are too far apart
    for their squares to meet. *)
Theorem click_on_one_block draw mouse p q :
  p ∈ generate_random_block_positions draw →
  q ∈ generate_random_block_positions draw →
  _is_click_on_block mouse p = true →
  _is_click_on_block mouse q = true →
  p = q.
Proof.
  intros Hp Hq [Hpx Hpy]%click_on_block_near [Hqx Hqy]%click_on_block_near.
  destruct (decide (p = q)) as [|Hne]; [done|]. exfalso.
  assert (Hinv : layout_inv (generate_random_block_positions draw)).
  { apply place_blocks_inv. split; cbn.
    - unfold NUM_BLOCKS. lia.
    - intros r Hr. by apply not_elem_of_nil in Hr.
    - apply NoDup_nil_2.
    - intros r r' Hr. by apply not_elem_of_nil in Hr. }
  pose proof (layout_far _ Hinv p q Hp Hq Hne) as Hfar.
  unfold far_enough, MIN_BLOCK_DISTANCE in Hfar. apply Z.leb_le in Hfar.
  pose proof (close_on_axis _ _ _ Hpx Hqx). pose proof (close_on_axis _ _ _ Hpy Hqy).
  nia.
Qed.

(** ** The response *)

Lemma click_cases mouse blocks i response_sequence :
  click mouse blocks i response_sequence = response_sequence
  ∨ ∃ j, click mouse blocks i response_sequence = response_sequence ++ [j] ∧
         (j ∉ response_sequence) ∧ i ≤ j < i + Z.of_nat (length blocks).
Proof.
  revert i. induction blocks as [|block rest IH]; intros i; [by left|].
  cbn [click]. destruct (_is_click_on_block mouse block).
  - case_decide; [by left|]. right. exists i. cbn [length]. split_and!; [done..|lia|lia].
  - destruct (IH (i + 1)) as [->|(j & -> & Hj & Hrange)]; [by left|].
    right. exists j. cbn [length]. split_and!; [done..|lia|lia].
Qed.

Lemma response_loop_given span_length blocks polls response_sequence response :
  NoDup response_sequence →
  (∀ i, i ∈ response_sequence → 0 ≤ i < Z.of_nat (length blocks)) →
  Z.of_nat (length response_sequence) ≤ Z.max 0 span_length →
  response_loop span_length blocks polls response_sequence = ResponseGiven response →
  NoDup response ∧
  (∀ i, i ∈ response → 0 ≤ i < Z.of_nat (length blocks)) ∧
  Z.of_nat (length response) = Z.max 0 span_length.
Proof.
  revert response_sequence.
  induction polls as [|poll polls IH]; intros acc Hnd Hrange Hlen; cbn [response_loop].
  - case_decide; [done|]. intros [= <-]. split_and!; [done..|lia].
  - case_decide as Hlt; [|intros [= <-]; split_and!; [done..|lia]].
    destruct (_check_quit_keys (quit_keys poll)); [done..|].
    destruct (replay_keys poll).
    + destruct (pressed poll); [|by apply IH].
      destruct (click_cases (mouse_pos poll) blocks 0 acc)
        as [->|(j & -> & Hj & Hjr)]; [by apply IH|].
      apply IH.
      * apply NoDup_app. split_and!; [done| |apply NoDup_singleton].
        intros k Hk ->%list_elem_of_singleton. done.
      * intros k [Hk| ->%list_elem_of_singleton]%elem_of_app; [by apply Hrange | lia].
      * rewrite length_app. cbn [length]. lia.
    + apply IH; [apply NoDup_nil_2| |cbn [length]; lia].
      intros k Hk. by apply not_elem_of_nil in Hk.
Qed.

Lemma NoDup_in_range (l : list Z) (n : nat) :
  NoDup l → (∀ i, i ∈ l → 0 ≤ i < Z.of_nat n) → (length l ≤ n)%nat.
Proof.
  intros Hnd Hrange.
  assert (l ⊆ seqZ 0 (Z.of_nat n)) as Hsub.
  { intros i Hi. apply elem_of_seqZ. specialize (Hrange i Hi). lia. }
  apply NoDup_submseteq in Hsub; [|done].
  apply submseteq_length in Hsub. rewrite length_seqZ in Hsub. lia.
Qed.

(** A response, when the loop gives one: [span_length] blocks, each an
    index into [blocks], none of them twice.  So the loop never gives a
    response when it is asked for more blocks than there are. *)
Theorem response_well_formed span_length blocks polls response :
  _get_participant_response span_length blocks polls = ResponseGiven response →
  NoDup response ∧
  (∀ i, i ∈ response → 0 ≤ i < Z.of_nat (length blocks)) ∧
  Z.of_nat (length response) = Z.max 0 span_length ∧
  span_length ≤ Z.of_nat (length blocks).
Proof.
  intros Hgiven. unfold _get_participant_response in Hgiven.
  apply response_loop_given in Hgiven as (Hnd & Hrange & Hlen).
  - split_and!; try done.
    pose proof (NoDup_in_range response (length blocks) Hnd Hrange). lia.
  - apply NoDup_nil_2.
  - intros i Hi. by apply not_elem_of_nil in Hi.
  - cbn [length]. lia.
Qed.

(** ** The main test of the desktop task *)

(** A trial that reports success has appended its record, any other end
    leaves the results alone. *)
Lemma run_single_trial_results span_length trial_num sequence blocks exp_info env
    results results' ended :
  run_single_trial span_length trial_num sequence blocks exp_info env results
  = (results', ended) →
  match ended with
  | inr true =>
      ∃ d response,
        results' = results ++ [d] ∧
        _get_participant_response span_length blocks (env_polls env)
        = ResponseGiven response ∧
        CorsiTask.span_length d = span_length ∧
        CorsiTask.trial_number d = trial_num ∧
        CorsiTask.correct d = list_eq response sequence ∧
        CorsiTask.sequence d = join_ints sequence ∧
        CorsiTask.response d = join_ints response
  | _ => results' = results
  end.
Proof.
  unfold run_single_trial.
  destruct (_show_sequence _ _ _ _) as [h|[|]]; [by intros [= <- <-]| |by intros [= <- <-]].
  destruct (_get_participant_response _ _ _) as [| |response|] eqn:Hresp;
    try by intros [= <- <-].
  unfold _record_trial_result.
  destruct (exp_info !! "candidate_name"); [|by intros [= <- <-]].
  destruct (exp_info !! "candidate_id"); [|by intros [= <- <-]].
  destruct (exp_info !! "age"); [|by intros [= <- <-]].
  destruct (exp_info !! "gender"); [|by intros [= <- <-]].
  destruct (exp_info !! "examiner_name"); [|by intros [= <- <-]].
  intros [= <- <-]. eexists. exists response. split_and!; done.
Qed.

Lemma span_loop_results env exp_info S trial_nums results span_results results' ended :
  span_loop env exp_info S trial_nums results span_results = (results', ended) →
  ∃ ds, results' = results ++ ds ∧
        (length ds ≤ length trial_nums)%nat ∧
        Forall (λ d, CorsiTask.span_length d = S) ds ∧
        match ended with
        | inr (Some flags) =>
            CorsiTask.trial_number <$> ds = (λ t, t + 1) <$> trial_nums ∧
            flags = span_results ++ (CorsiTask.correct <$> ds)
        | _ => True
        end.
Proof.
  revert results span_results.
  induction trial_nums as [|t rest IH]; intros results acc; cbn [span_loop].
  - intros [= <- <-]. exists []. rewrite !app_nil_r. done.
  - destruct (random_sample _ _ _) as [h|sequence].
    { intros [= <- <-]. exists []. rewrite app_nil_r. split_and!; try done. cbn. lia. }
    destruct (run_single_trial _ _ _ _ _ _ _) as [results1 ended1] eqn:Htrial.
    apply run_single_trial_results in Htrial.
    destruct ended1 as [h|[|]].
    + intros [= <- <-]. subst results1. exists []. rewrite app_nil_r.
      split_and!; try done. cbn. lia.
    + destruct Htrial as (d & response & -> & _ & Hs & Ht & _).
      rewrite last_snoc. intros Hloop.
      destruct (IH _ _ Hloop) as (ds & -> & Hlen & Hall & Hend).
      exists (d :: ds). rewrite <- app_assoc. split_and!; try done.
      * cbn. lia.
      * by constructor.
      * destruct ended as [h|[flags|]]; try done. destruct Hend as [Hnums ->].
        rewrite !fmap_cons, Hnums, Ht, <- app_assoc. done.
    + intros [= <- <-]. subst results1. exists []. rewrite app_nil_r.
      split_and!; try done. cbn. lia.
Qed.

(** The records a span adds when its trials are all run: one for each
    trial number, in order. *)
Lemma span_loop_completed env exp_info S results results' flags :
  span_loop env exp_info S (seqZ 0 TRIALS_PER_SPAN) results [] = (results', inr (Some flags)) →
  ∃ d1 d2, results' = results ++ [d1; d2] ∧
           CorsiTask.span_length d1 = S ∧ CorsiTask.trial_number d1 = 1 ∧
           CorsiTask.span_length d2 = S ∧ CorsiTask.trial_number d2 = 2 ∧
           flags = [CorsiTask.correct d1; CorsiTask.correct d2].
Proof.
  intros Hloop. apply span_loop_results in Hloop as (ds & -> & _ & Hall & Hnums & ->).
  change (seqZ 0 TRIALS_PER_SPAN) with [0; 1] in Hnums.
  destruct ds as [|d1 [|d2 [|d3 ds]]]; try done.
  injection Hnums as Ht1 Ht2. inversion Hall as [|? ? Hs1 Hall']. inversion Hall' as [|? ? Hs2 _].
  exists d1, d2. done.
Qed.

(** The two trials of a span, on the side of the engine: from an open
    session at the first trial of span [S], the first call leaves the
    session open at the second trial, and the second call moves it to the
    first trial of the next span when an answer was correct and [S] is below
    [MAX_SPAN], and ends it otherwise. *)
Lemma engine_span_round e seq1 resp1 now1 seq2 resp2 now2 :
  session_inv e → current_trial e = 1 →
  let e1 := (submit_trial e seq1 resp1 now1).1 in
  let e2 := (submit_trial e1 seq2 resp2 now2).1 in
  finished e1 = false ∧
  results e2 = results e ++ [ mkTrial (current_span e) 1 seq1 resp1 (list_eq seq1 resp1) now1;
                              mkTrial (current_span e) 2 seq2 resp2 (list_eq seq2 resp2) now2 ] ∧
  (if (list_eq seq1 resp1 || list_eq seq2 resp2) && bool_decide (current_span e < MAX_SPAN)
   then session_inv e2 ∧ current_span e2 = current_span e + 1 ∧ current_trial e2 = 1
   else finished e2 = true).
Proof.
  intros Hinv Htrial e1 e2.
  pose proof Hinv as [Hfin Hspan _ _ [Hcur _] _]. rewrite Htrial in Hcur.
  assert (Hnil : at_span (current_span e) (results e) = []).
  { destruct (at_span _ _); [done | cbn [length] in Hcur; lia]. }
  (* the first call *)
  pose proof (submit_trial_cases e seq1 resp1 now1) as H1. cbv zeta in H1.
  pose proof (submit_trial_results e seq1 resp1 now1) as Hres1.
  fold e1 in H1, Hres1.
  rewrite Hres1, at_span_snoc, decide_True, Hnil in H1 by done.
  cbn [app length] in H1.
  destruct H1 as [(_ & Hs1 & Ht1 & Hf1)|[(? & _)|[(? & _)|(? & _)]]];
    [|unfold TRIALS_PER_SPAN in *; lia..].
  rewrite Hfin in Hf1. rewrite Htrial in Ht1.
  assert (Hinv1 : session_inv e1) by by apply session_inv_submit.
  (* the second call *)
  pose proof (submit_trial_cases e1 seq2 resp2 now2) as H2. cbv zeta in H2.
  pose proof (submit_trial_results e1 seq2 resp2 now2) as Hres2.
  fold e2 in H2, Hres2.
  assert (Hres : results e2
    = results e ++ [ mkTrial (current_span e) 1 seq1 resp1 (list_eq seq1 resp1) now1;
                     mkTrial (current_span e) 2 seq2 resp2 (list_eq seq2 resp2) now2 ]).
  { rewrite Hres2, Hres1. unfold recorded. rewrite Hs1, Ht1, Htrial, <- app_assoc. done. }
  assert (Hat : at_span (current_span e) (results e2)
    = [ mkTrial (current_span e) 1 seq1 resp1 (list_eq seq1 resp1) now1;
        mkTrial (current_span e) 2 seq2 resp2 (list_eq seq2 resp2) now2 ]).
  { rewrite Hres, at_span_app, Hnil. unfold at_span.
    rewrite !filter_cons_True by done. done. }
  rewrite Hs1, Hat in H2. cbn [length] in H2.
  assert (Hsum : sum_correct
            [ mkTrial (current_span e) 1 seq1 resp1 (list_eq seq1 resp1) now1;
              mkTrial (current_span e) 2 seq2 resp2 (list_eq seq2 resp2) now2 ]
          = Z.b2z (list_eq seq1 resp1) + Z.b2z (list_eq seq2 resp2)).
  { rewrite !sum_correct_cons. cbn. unfold sum_correct, py_sum. cbn. lia. }
  rewrite Hsum in H2.
  split_and!; [done..|].
  destruct H2 as [(? & _)|[(_ & Hzero & _ & _ & Hf2)
     |[(_ & Hpos & Hlt & Hs2 & Ht2 & Hf2)|(_ & Hpos & Hge & _ & _ & Hf2)]]].
  - unfold TRIALS_PER_SPAN in *. lia.
  - destruct (list_eq seq1 resp1), (list_eq seq2 resp2); cbn in Hzero; try lia. done.
  - assert (list_eq seq1 resp1 || list_eq seq2 resp2 = true) as ->.
    { destruct (list_eq seq1 resp1), (list_eq seq2 resp2); cbn in Hpos; try done; lia. }
    rewrite bool_decide_eq_true_2 by done. cbn.
    split_and!; try done. apply session_inv_submit; [done|].
    change (finished e2 = false). by rewrite Hf2.
  - rewrite bool_decide_eq_false_2 by lia. by rewrite andb_false_r.
Qed.

Lemma seqZ_S_cons m n :
  seqZ m (Z.of_nat (Datatypes.S n)) = m :: seqZ (Z.succ m) (Z.of_nat n).
Proof. rewrite Nat2Z.inj_succ, seqZ_cons by lia. by rewrite Z.pred_succ. Qed.

Lemma main_loop_mirrors env exp_info n S D0 D e0 :
  S + Z.of_nat n = MAX_SPAN →
  session_inv e0 → current_span e0 = S → current_trial e0 = 1 →
  Forall2 same_trial (results e0) D0 →
  main_loop env exp_info (seqZ S (Z.of_nat (Datatypes.S n))) D0 = (D, inr true) →
  ∃ D1, D = D0 ++ D1 ∧
        ∀ ops, Forall2 answers_like ops D1 →
               finished (run e0 ops) = true ∧
               Forall2 same_trial (results (run e0 ops)) D ∧
               ∀ k, (k < length ops)%nat → finished (run e0 (take k ops)) = false.
Proof.
  revert S D0 e0. induction n as [|n IH]; intros S D0 e0 HS Hinv Hspan Htrial Hsame.
  all: rewrite seqZ_S_cons; cbn [main_loop].
  all: destruct (span_loop _ _ _ _ _ _) as [D' [h|[flags|]]] eqn:Hloop; try done.
  all: apply span_loop_completed in Hloop
         as (d1 & d2 & -> & Hs1 & Ht1 & Hs2 & Ht2 & ->).
  all: assert (Hround : ∀ ops, Forall2 answers_like ops [d1; d2] →
         ∃ seq1 resp1 now1 seq2 resp2 now2,
           ops = [OpSubmitTrial seq1 resp1 now1; OpSubmitTrial seq2 resp2 now2] ∧
           list_eq seq1 resp1 = CorsiTask.correct d1 ∧
           list_eq seq2 resp2 = CorsiTask.correct d2)
       by (intros ops Hops;
           apply Forall2_cons_inv_r in Hops as (op1 & ops' & (s1 & r1 & n1 & -> & Hc1) & Hops & ->);
           apply Forall2_cons_inv_r in Hops as (op2 & ops'' & (s2 & r2 & n2 & -> & Hc2) & Hops & ->);
           apply Forall2_nil_inv_r in Hops as ->;
           by exists s1, r1, n1, s2, r2, n2).
  all: assert (Hflags : py_sum (Z.b2z <$> [CorsiTask.correct d1; CorsiTask.correct d2]) = 0
                        ↔ CorsiTask.correct d1 || CorsiTask.correct d2 = false)
       by (unfold py_sum; cbn;
           destruct (CorsiTask.correct d1), (CorsiTask.correct d2); cbn; split; (done || lia)).
  all: assert (Hends : ∀ ops,
         Forall2 answers_like ops [d1; d2] →
         (CorsiTask.correct d1 || CorsiTask.correct d2) && bool_decide (S < MAX_SPAN) = false →
         finished (run e0 ops) = true ∧
         Forall2 same_trial (results (run e0 ops)) (D0 ++ [d1; d2]) ∧
         ∀ k, (k < length ops)%nat → finished (run e0 (take k ops)) = false).
  1,3: intros ops Hops Hstop;
       destruct (Hround ops Hops) as (s1 & r1 & n1 & s2 & r2 & n2 & -> & Hc1 & Hc2);
       destruct (engine_span_round e0 s1 r1 n1 s2 r2 n2 Hinv Htrial) as (Hf1 & Hres & Hnext);
       rewrite Hc1, Hc2, Hspan, Hstop in Hnext; cbn [run foldl step];
       split_and!;
       [ done
       | rewrite Hres; apply Forall2_app; [done|];
         repeat constructor; cbn; congruence
       | intros [|[|k]] Hk; cbn [length] in Hk; try lia;
         [ cbn; apply Hinv | cbn; exact Hf1 ] ].
  - (* the last span *)
    destruct (decide (py_sum _ = 0)) as [Hzero|Hzero].
    + intros [= <-]. exists [d1; d2]. split; [done|]. intros ops Hops.
      apply Hends; [done|]. apply Hflags in Hzero. by rewrite Hzero.
    + change (seqZ (Z.succ S) (Z.of_nat 0)) with (@nil Z). cbn [main_loop].
      intros [= <-]. exists [d1; d2]. split; [done|]. intros ops Hops.
      apply Hends; [done|]. rewrite bool_decide_eq_false_2 by lia. apply andb_false_r.
  - destruct (decide (py_sum _ = 0)) as [Hzero|Hzero].
    + intros [= <-]. exists [d1; d2]. split; [done|]. intros ops Hops.
      apply Hends; [done|]. apply Hflags in Hzero. by rewrite Hzero.
    + intros Hrest.
      assert (CorsiTask.correct d1 || CorsiTask.correct d2 = true) as Hsome.
      { apply not_false_iff_true. intros Hor. by apply Hflags in Hor. }
      (* any two answers like [d1], [d2] take the engine to the next span *)
      assert (Hstep : ∀ s1 r1 n1 s2 r2 n2,
                list_eq s1 r1 = CorsiTask.correct d1 →
                list_eq s2 r2 = CorsiTask.correct d2 →
                let e2 := run e0 [OpSubmitTrial s1 r1 n1; OpSubmitTrial s2 r2 n2] in
                session_inv e2 ∧ current_span e2 = Z.succ S ∧ current_trial e2 = 1 ∧
                Forall2 same_trial (results e2) (D0 ++ [d1; d2]) ∧
                finished (run e0 [OpSubmitTrial s1 r1 n1]) = false).
      { intros s1 r1 n1 s2 r2 n2 Hc1 Hc2. cbn [run foldl step].
        destruct (engine_span_round e0 s1 r1 n1 s2 r2 n2 Hinv Htrial) as (Hf1 & Hres & Hnext).
        rewrite Hc1, Hc2, Hspan, Hsome, bool_decide_eq_true_2 in Hnext by lia.
        destruct Hnext as (Hinv2 & Hs2' & Ht2').
        split_and!; [exact Hinv2 | lia | exact Ht2' | | exact Hf1].
        rewrite Hres. apply Forall2_app; [done|]. repeat constructor; cbn; congruence. }
      (* a first pair of answers fixes the engine the remaining spans start from *)
      destruct (Hstep [] (if CorsiTask.correct d1 then [] else [0]) ""
                      [] (if CorsiTask.correct d2 then [] else [0]) "")
        as (Hinv2 & Hspan2 & Htrial2 & Hsame2 & _);
        [by destruct (CorsiTask.correct d1) | by destruct (CorsiTask.correct d2) |].
      destruct (IH (Z.succ S) (D0 ++ [d1; d2]) _ ltac:(lia) Hinv2 Hspan2 Htrial2 Hsame2 Hrest)
        as (D1 & -> & _).
      exists ([d1; d2] ++ D1). split; [by rewrite app_assoc|].
      intros ops Hops. apply Forall2_app_inv_r in Hops as (ops12 & ops' & Hops12 & Hops' & ->).
      destruct (Hround ops12 Hops12) as (s1 & r1 & n1 & s2 & r2 & n2 & -> & Hc1 & Hc2).
      destruct (Hstep s1 r1 n1 s2 r2 n2 Hc1 Hc2) as (Hinv3 & Hspan3 & Htrial3 & Hsame3 & Hf1).
      destruct (IH (Z.succ S) (D0 ++ [d1; d2]) _ ltac:(lia) Hinv3 Hspan3 Htrial3 Hsame3 Hrest)
        as (D1' & HD1 & Hrun).
      apply app_inv_head in HD1 as <-.
      destruct (Hrun ops' Hops') as (Hfin & Hall & Hpre).
      rewrite run_app. split_and!; [done|done|].
      intros [|[|k]] Hk.
      * cbn. apply Hinv.
      * exact Hf1.
      * change (take (Datatypes.S (Datatypes.S k)) ([_; _] ++ ops'))
          with ([OpSubmitTrial s1 r1 n1; OpSubmitTrial s2 r2 n2] ++ take k ops').
        rewrite run_app. apply Hpre. cbn [length app] in Hk. lia.
Qed.

Lemma same_trial_at_span rs D s :
  Forall2 same_trial rs D →
  Forall2 same_trial (at_span s rs) (filter (λ d, CorsiTask.span_length d = s) D).
Proof.
  induction 1 as [|r d rs D (Hs & Ht & Hc) _ IH]; [constructor|].
  unfold at_span. rewrite !filter_cons. rewrite Hs.
  destruct (decide (CorsiTask.span_length d = s)); [|done]. by constructor.
Qed.

Lemma same_trial_sum_correct rs D :
  Forall2 same_trial rs D →
  sum_correct rs = py_sum (map (λ t, Z.b2z (CorsiTask.correct t)) D).
Proof.
  induction 1 as [|r d rs D (Hs & Ht & Hc) _ IH]; [done|].
  rewrite sum_correct_cons. cbn [map]. rewrite py_sum_cons, IH, Hc. done.
Qed.

Lemma same_trial_score_spans rs D spans m :
  Forall2 same_trial rs D →
  score_spans rs spans m = CorsiTask.score_spans D spans m.
Proof.
  intros Hsame. revert m. induction spans as [|s spans IH]; intros m; [done|].
  cbn [score_spans CorsiTask.score_spans].
  pose proof (same_trial_at_span rs D s Hsame) as Hat.
  rewrite (same_trial_sum_correct _ _ Hat), (Forall2_length _ _ _ Hat).
  destruct (true_div _ _) as [q|e]; [|done]. apply IH.
Qed.

Lemma same_trial_spans rs D :
  Forall2 same_trial rs D → span_length <$> rs = CorsiTask.span_length <$> D.
Proof.
  induction 1 as [|r d rs D (Hs & Ht & Hc) _ IH]; [done|].
  rewrite !fmap_cons. by rewrite Hs, IH.
Qed.

(** Records that tell the same of every trial get the same score from the
    engine and from the desktop task. *)
Lemma same_trial_score self D :
  Forall2 same_trial (results self) D →
  calculate_corsi_span self = CorsiTask.calculate_corsi_span D.
Proof.
  intros Hsame. unfold calculate_corsi_span, CorsiTask.calculate_corsi_span, spans_of.
  by rewrite (same_trial_spans _ _ Hsame), (same_trial_score_spans _ _ _ _ Hsame).
Qed.

Lemma run_main_test_spans env exp_info results :
  run_main_test env exp_info results
  = main_loop env exp_info (seqZ MIN_SPAN (Z.of_nat 7)) results.
Proof. reflexivity. Qed.

Lemma main_loop_from_init env exp_info D info ops :
  main_loop env exp_info (seqZ MIN_SPAN (Z.of_nat 7)) [] = (D, inr true) →
  Forall2 answers_like ops D →
  finished (run (init info) ops) = true ∧
  (∀ k, (k < length ops)%nat → finished (run (init info) (take k ops)) = false) ∧
  Forall2 same_trial (results (run (init info) ops)) D.
Proof.
  intros Hmain Hops.
  pose proof (main_loop_mirrors env exp_info 6 MIN_SPAN [] D (init info)) as H.
  specialize (H eq_refl (session_inv_init info) eq_refl eq_refl
                (Forall2_nil_2 _ _ _) Hmain).
  destruct H as (D1 & HD & Hrun). cbn [app] in HD. subst D.
  destruct (Hrun ops Hops) as (Hfin & Hsame & Hpre).
  split_and!; [exact Hfin | exact Hpre | exact Hsame].
Qed.

(** The main test of the desktop task and the engine run the same
    progression.  When [run_main_test], started on no results, returns
    [True] with the records [D], an engine given answers that score as the
    records of [D] did is finished by the last of them and by none before;
    its records carry the spans, trial numbers and flags of [D]; and it
    computes the score the desktop task computes from [D]. *)
Theorem run_main_test_mirrors_engine env exp_info D info ops :
  run_main_test env exp_info [] = (D, inr true) →
  Forall2 answers_like ops D →
  finished (run (init info) ops) = true ∧
  (∀ k, (k < length ops)%nat → finished (run (init info) (take k ops)) = false) ∧
  Forall2 same_trial (results (run (init info) ops)) D ∧
  calculate_corsi_span (run (init info) ops) = CorsiTask.calculate_corsi_span D.
Proof.
  intros Hmain Hops. rewrite run_main_test_spans in Hmain.
  destruct (main_loop_from_init env exp_info D info ops Hmain Hops)
    as (Hfin & Hpre & Hsame).
  split_and!; [exact Hfin | exact Hpre | exact Hsame |].
  apply same_trial_score. exact Hsame.
Qed.

Lemma span_loop_records env exp_info S trial_nums results span_results results' ended :
  span_loop env exp_info S trial_nums results span_results = (results', ended) →
  ∃ ds, results' = results ++ ds ∧
        (length ds ≤ length trial_nums)%nat ∧
        Forall (λ d, CorsiTask.span_length d = S ∧
                     ∃ t, t ∈ trial_nums ∧ CorsiTask.trial_number d = t + 1) ds.
Proof.
  revert results span_results.
  induction trial_nums as [|t rest IH]; intros results acc; cbn [span_loop].
  - intros [= <- <-]. exists []. rewrite app_nil_r. done.
  - assert (Hnone : ∃ ds : list CorsiTask.TrialResult,
              results = results ++ ds ∧ (length ds ≤ length (t :: rest))%nat ∧
              Forall (λ d, CorsiTask.span_length d = S ∧
                           ∃ t', t' ∈ t :: rest ∧ CorsiTask.trial_number d = t' + 1) ds).
    { exists []. rewrite app_nil_r. split_and!; [done|cbn; lia|constructor]. }
    destruct (random_sample _ _ _) as [h|sequence]; [by intros [= <- <-]|].
    destruct (run_single_trial _ _ _ _ _ _ _) as [results1 ended1] eqn:Htrial.
    apply run_single_trial_results in Htrial.
    destruct ended1 as [h|[|]]; [intros [= <- <-]; by subst results1| |
                                 intros [= <- <-]; by subst results1].
    destruct Htrial as (d & response & -> & _ & Hs & Ht & _).
    rewrite last_snoc. intros Hloop.
    destruct (IH _ _ Hloop) as (ds & -> & Hlen & Hall).
    exists (d :: ds). rewrite <- app_assoc. split_and!; [done|cbn; lia|].
    constructor.
    + split; [done|]. exists t. split; [apply list_elem_of_here | done].
    + eapply Forall_impl; [exact Hall|]. intros d' (? & t' & ? & ?).
      split; [done|]. exists t'. split; [by apply list_elem_of_further | done].
Qed.

Lemma main_loop_records env exp_info spans results results' ended :
  main_loop env exp_info spans results = (results', ended) →
  ∃ ds, results' = results ++ ds ∧
        Z.of_nat (length ds) ≤ TRIALS_PER_SPAN * Z.of_nat (length spans) ∧
        Forall (λ d, CorsiTask.span_length d ∈ spans ∧
                     1 ≤ CorsiTask.trial_number d ≤ TRIALS_PER_SPAN) ds.
Proof.
  revert results. induction spans as [|S rest IH]; intros results; cbn [main_loop].
  - intros [= <- <-]. exists []. rewrite app_nil_r. split_and!; [done|cbn; lia|constructor].
  - destruct (span_loop _ _ _ _ _ _) as [results1 ended1] eqn:Hloop.
    apply span_loop_records in Hloop as (ds & -> & Hlen & Hall).
    change (length (seqZ 0 TRIALS_PER_SPAN)) with 2%nat in Hlen.
    assert (Hds : Forall (λ d, CorsiTask.span_length d ∈ S :: rest ∧
                               1 ≤ CorsiTask.trial_number d ≤ TRIALS_PER_SPAN) ds).
    { eapply Forall_impl; [exact Hall|]. intros d (-> & t & Ht & ->).
      split; [apply list_elem_of_here|].
      change (seqZ 0 TRIALS_PER_SPAN) with [0; 1] in Ht. unfold TRIALS_PER_SPAN.
      apply elem_of_cons in Ht as [->|Ht]; [lia|].
      apply list_elem_of_singleton in Ht as ->. lia. }
    assert (Hstop : ∃ ds0 : list CorsiTask.TrialResult,
              results ++ ds = results ++ ds0 ∧
              Z.of_nat (length ds0) ≤ TRIALS_PER_SPAN * Z.of_nat (length (S :: rest)) ∧
              Forall (λ d, CorsiTask.span_length d ∈ S :: rest ∧
                           1 ≤ CorsiTask.trial_number d ≤ TRIALS_PER_SPAN) ds0).
    { exists ds. split_and!; [done| |done]. unfold TRIALS_PER_SPAN. cbn [length]. lia. }
    destruct ended1 as [h|[flags|]]; [by intros [= <- <-]| |by intros [= <- <-]].
    case_decide; [by intros [= <- <-]|].
    intros Hrest. destruct (IH _ Hrest) as (ds' & -> & Hlen' & Hall').
    exists (ds ++ ds'). rewrite <- app_assoc. split_and!; [done| |].
    + rewrite length_app. unfold TRIALS_PER_SPAN in *. cbn [length]. lia.
    + apply Forall_app. split; [done|].
      eapply Forall_impl; [exact Hall'|]. intros d [? ?].
      split; [by apply list_elem_of_further | done].
Qed.

(** However the main test ends, by its return, by a quit, by [exit()] or
    by an exception: the results it was given are still there, in front of
    at most [TRIALS_PER_SPAN] new records per span, each with a span between
    [MIN_SPAN] and [MAX_SPAN] and a trial number between 1 and
    [TRIALS_PER_SPAN]. *)
Theorem run_main_test_records env exp_info results results' ended :
  run_main_test env exp_info results = (results', ended) →
  ∃ ds, results' = results ++ ds ∧
        Z.of_nat (length ds) ≤ TRIALS_PER_SPAN * (MAX_SPAN - MIN_SPAN + 1) ∧
        Forall (λ d, MIN_SPAN ≤ CorsiTask.span_length d ≤ MAX_SPAN ∧
                     1 ≤ CorsiTask.trial_number d ≤ TRIALS_PER_SPAN) ds.
Proof.
  rewrite run_main_test_spans. intros Hmain.
  apply main_loop_records in Hmain as (ds & -> & Hlen & Hall).
  exists ds. split_and!; [done| |].
  - rewrite length_seqZ in Hlen. unfold TRIALS_PER_SPAN, MAX_SPAN, MIN_SPAN in *. lia.
  - eapply Forall_impl; [exact Hall|]. intros d [Hs Ht]. split; [|done].
    apply elem_of_seqZ in Hs. unfold MAX_SPAN, MIN_SPAN in *. lia.
Qed.

(** ** The further properties on concrete sessions *)

(** From [init] on, [new_sequence] always returns: the span asked of
    [random.sample] never passes [NUM_BLOCKS]. *)
Theorem reachable_new_sequence info ops sample :
  new_sequence (run (init info) ops) sample = Ok sample.
Proof. apply new_sequence_reachable. Qed.

Lemma open_session_accounting_witness :
  Z.of_nat (length (results one_success))
  = TRIALS_PER_SPAN * (current_span one_success - MIN_SPAN)
    + (current_trial one_success - 1).
Proof.
  apply (open_session_accounting example_candidate [right_answer "t1"]).
  reflexivity.
Defined.

Lemma session_length_bounds_witness :
  TRIALS_PER_SPAN ≤ Z.of_nat (submits [wrong_answer "t1"; wrong_answer "t2"]) ∧
  finished (run (init example_candidate) (replicate 14 (right_answer "t"))) = true.
Proof.
  split.
  - apply (session_length_bounds example_candidate
             [wrong_answer "t1"; wrong_answer "t2"]).
    reflexivity.
  - apply (session_length_bounds example_candidate (replicate 14 (right_answer "t"))).
    vm_compute. discriminate.
Defined.

Lemma records_per_span_witness :
  Z.of_nat (length (at_span 2 (results two_failures))) ≤ TRIALS_PER_SPAN.
Proof.
  apply (records_per_span example_candidate [wrong_answer "t1"] (wrong_answer "t2") 2).
  reflexivity.
Defined.

Lemma open_session_score_witness : calculate_corsi_span one_success = Ok 2.
Proof.
  exact (open_session_score example_candidate [right_answer "t1"] eq_refl).
Defined.

Lemma finished_session_score_witness :
  calculate_corsi_span (submit_trial scenario_open [2; 5; 1] [2; 1; 5] "t6").1 = Ok 3.
Proof.
  apply (finished_session_score example_candidate
           [right_answer "t1"; right_answer "t2"; right_answer "t3";
            wrong_answer "t4"; wrong_answer "t5"] [2; 5; 1] [2; 1; 5] "t6").
  - vm_compute. reflexivity.
  - vm_compute. reflexivity.
Defined.

Lemma save_session_summary_bounds_witness :
  ∃ sd calls, save_session two_failures "t3" = Ok (Some sd, calls) ∧
              (0 <= accuracy sd <= 100)%Q.
Proof.
  destruct (save_session_nonempty two_failures "t3") as (span & _ & Hsave).
  { discriminate. }
  cbv zeta in Hsave. eexists. eexists. split; [exact Hsave|].
  apply (save_session_summary_bounds two_failures "t3" _ _ Hsave).
Defined.

Lemma example_server_session : SESSIONS example_server !! "id-1" = Some (init example_candidate).
Proof. apply lookup_insert_eq. Qed.

Lemma example_server_other : SESSIONS example_server !! "id-2" = None.
Proof. vm_compute. reflexivity. Qed.

Lemma post_submit_trial_known_witness :
  post_submit_trial example_server "id-1" [2; 5; 1] [2; 1; 5] "t1" "t1"
  = ({| SESSIONS := <["id-1" := one_failure]> (SESSIONS example_server);
        db_log := db_log example_server |},
     Http200 ((submit_trial (init example_candidate) [2; 5; 1] [2; 1; 5] "t1").2, None)).
Proof.
  apply (post_submit_trial_known example_server "id-1" (init example_candidate)
           [2; 5; 1] [2; 1; 5] "t1" "t1" example_server_session).
  reflexivity.
Defined.

Lemma post_submit_trial_isolation_witness :
  post_submit_trial example_server "id-2" [2; 5; 1] [2; 1; 5] "t1" "t1"
  = (example_server, Http404) ∧
  SESSIONS (post_submit_trial example_server "id-1" [2; 5; 1] [2; 1; 5] "t1" "t1").1
    !! "id-2" = SESSIONS example_server !! "id-2".
Proof.
  split.
  - apply (post_submit_trial_isolation example_server "id-2").
    apply example_server_other.
  - apply (post_submit_trial_isolation example_server "id-1"). discriminate.
Defined.

Lemma serve_tracks_engine_witness :
  SESSIONS (serve example_server "id-1" [wrong_request "t1"; wrong_request "t2"])
    !! "id-1" = Some two_failures.
Proof.
  apply (serve_tracks_engine example_server "id-1" (init example_candidate)
           [wrong_request "t1"; wrong_request "t2"] example_server_session).
Defined.

Lemma serve_no_write_while_open_witness :
  db_log (serve example_server "id-1" [wrong_request "t1"]) = db_log example_server.
Proof.
  apply (proj1 (serve_no_write_while_open example_server "id-1" [wrong_request "t1"])
           (init example_candidate) example_server_session).
  reflexivity.
Defined.

Lemma session_lifecycle_witness :
  ∃ sd,
    db_log (serve example_server "id-1" [wrong_request "t1"; wrong_request "t2"])
    = [save_candidate example_candidate; save_test_session "C001" sd] ∧
    total_trials sd = 2.
Proof.
  destruct (session_lifecycle {| SESSIONS := ∅; db_log := [] |} example_body
              example_candidate "id-1" [wrong_request "t1"] (wrong_request "t2"))
    as (sd & Hlog & Htotal & _).
  - reflexivity.
  - reflexivity.
  - reflexivity.
  - exists sd. split; [exact Hlog | exact Htotal].
Defined.

Lemma get_sequence_answers_witness :
  get_sequence example_server "id-2" [4; 0] = Http404 ∧
  get_sequence (serve example_server "id-1" [wrong_request "t1"]) "id-1" [4; 0]
  = Http200 ([4; 0], {| st_span_length := 2; st_trial_number := 2;
                        st_finished := false |}).
Proof.
  split.
  - apply (get_sequence_answers example_server "id-2" [4; 0]).
    apply example_server_other.
  - exact (proj2 (get_sequence_answers example_server "id-1" [4; 0])
             example_candidate [wrong_request "t1"] example_server_session).
Defined.

Lemma validate_candidate_info_accepts_witness :
  validate_candidate_info example_int (example_info "1") = Ok true.
Proof.
  apply (validate_candidate_info_accepts example_int (example_info "1")).
  exists "Candidate", "C001", "1", 1. split_and!; try done. 
Defined.

Lemma validate_candidate_info_rejects_witness :
  validate_candidate_info example_int (example_info "0") = Ok false ∧
  validate_candidate_info example_int
    {[ "candidate_name" := "Candidate"; "candidate_id" := "C001" ]}
  = Raise KeyError.
Proof.
  split.
  - destruct (validate_candidate_info_rejects example_int (example_info "0"))
      as (_ & _ & Hbad & _).
    apply (Hbad "Candidate" "C001" "0"); try done. right. by exists 0.
  - destruct (validate_candidate_info_rejects example_int
                {[ "candidate_name" := "Candidate"; "candidate_id" := "C001" ]})
      as (_ & _ & _ & Hkey).
    apply (Hkey "Candidate" "C001"); done.
Defined.

(** ** The database and the desktop task on concrete inputs *)

Lemma consistent_empty : DatabaseManager.consistent DatabaseManager.empty.
Proof. intros cid. reflexivity. Qed.

Lemma save_candidate_again_witness :
  size (DatabaseManager.candidates
          (DatabaseManager.save_candidate
             (DatabaseManager.save_candidate DatabaseManager.empty
                example_candidate "d1" true).1
             example_candidate "d2" true).1)
  = size (DatabaseManager.candidates
            (DatabaseManager.save_candidate DatabaseManager.empty
               example_candidate "d1" true).1).
Proof.
  apply (save_candidate_again DatabaseManager.empty example_candidate
           example_candidate "d1" "d2").
  reflexivity.
Defined.

Lemma persist_session_witness :
  ∃ sd calls,
    save_session two_failures "t3" = Ok (Some sd, calls) ∧
    DatabaseManager.consistent
      (perform_all example_json_dumps false DatabaseManager.empty calls
         [("d1", true); ("d2", true)]).
Proof.
  destruct (save_session_nonempty two_failures "t3") as (span & _ & Hsave).
  { discriminate. }
  cbv zeta in Hsave. eexists. eexists. split; [exact Hsave|].
  apply (persist_session example_json_dumps false DatabaseManager.empty
           two_failures "t3" _ _ "d1" "d2" Hsave consistent_empty).
Defined.

Lemma block_positions_layout_witness :
  MIN_BLOCK_DISTANCE ^ 2 ≤ (-350 - -200) ^ 2 + (-250 - -100) ^ 2.
Proof.
  destruct (block_positions_layout example_draw) as (_ & _ & _ & Hfar).
  apply (Hfar (-350, -250) (-200, -100)).
  - vm_compute. repeat constructor.
  - vm_compute. repeat constructor.
  - discriminate.
Defined.

Lemma click_on_one_block_witness : (-200, -100) = (-200, -100).
Proof.
  apply (click_on_one_block example_draw (mouse_pos (click_at (-200) (-100)))).
  - vm_compute. repeat constructor.
  - vm_compute. repeat constructor.
  - vm_compute. reflexivity.
  - vm_compute. reflexivity.
Defined.

Lemma response_well_formed_witness : NoDup [1; 0] ∧ Z.of_nat (length [1; 0]) = Z.max 0 2.
Proof.
  destruct (response_well_formed 2 (generate_random_block_positions example_draw)
              (env_polls example_trial_env) [1; 0]) as (Hnd & _ & Hlen & _).
  - vm_compute. reflexivity.
  - split; [exact Hnd | exact Hlen].
Defined.

Lemma run_main_test_mirrors_engine_witness :
  finished two_failures = true ∧
  calculate_corsi_span two_failures
  = CorsiTask.calculate_corsi_span
      (run_main_test (λ _ _, example_trial_env) example_exp_info []).1.
Proof.
  destruct (run_main_test_mirrors_engine (λ _ _, example_trial_env) example_exp_info
              (run_main_test (λ _ _, example_trial_env) example_exp_info []).1
              example_candidate [wrong_answer "t1"; wrong_answer "t2"])
    as (Hfin & _ & _ & Hscore).
  - vm_compute. reflexivity.
  - vm_compute. repeat constructor; eexists _, _, _; split; reflexivity.
  - split; [exact Hfin | exact Hscore].
Defined.

Lemma run_main_test_records_witness :
  ∃ ds, (run_main_test (λ _ _, example_trial_env) example_exp_info []).1 = [] ++ ds ∧
        Z.of_nat (length ds) ≤ TRIALS_PER_SPAN * (MAX_SPAN - MIN_SPAN + 1).
Proof.
  destruct (run_main_test_records (λ _ _, example_trial_env) example_exp_info []
              (run_main_test (λ _ _, example_trial_env) example_exp_info []).1
              (inr true)) as (ds & Hds & Hlen & _).
  - vm_compute. reflexivity.
  - exists ds. split; [exact Hds | exact Hlen].
Defined.

